(** * Driver scheduling dashboard: stores, projections and calendar availability

    A shallow embedding of the in-memory driver and route stores
    (store/driverStore.ts, store/routeStore.ts), of the dashboard's search and
    status filters (pages/Dashboard.tsx) and of the calendar's availability
    classification (pages/Calendar.tsx), with the properties the specification
    states about them.

    Conventions of the embedding.
    - In the stores and in the classification of the calendar a JavaScript
      [Date] is the number of milliseconds of local wall-clock time since
      the local epoch, a [Z]; the time-zone offset is taken to be constant,
      so a local day is a block of [msPerDay] milliseconds. The week
      navigation, which moves dates by calendar days, works on time values
      instead, with the time zone as a parameter and [None] for an Invalid
      Date.
    - The [startTime] and [endTime] strings of a route are [datetime-local]
      values; the model stores the instant [new Date(...)] parses them to.
      The fields of the route form keep the three cases of such a text:
      empty, read as a date, or not read ([DateTimeLocal.t]).
    - Strings are Rocq strings, read as the bytes of the text. The
      definitions [toLowerCase], [trim], [removeWhitespace] and
      [String.length] below are what [String.prototype.toLowerCase],
      [trim], the class [\s] and [.length] do on ASCII text; the theorems
      that depend on them say so with the premise [asciiOnly], or take the
      lowering function as a parameter.
    - An optional property ([assignedDriverId?: string]) is an [option]. *)

From Stdlib Require Import ZArith List String Ascii Bool Lia.
Import ListNotations.

Local Open Scope string_scope.
Local Open Scope list_scope.
Local Open Scope Z_scope.

(** ** Dates *)

Definition Date := Z.

Definition msPerHour : Z := 3600000.
Definition msPerDay : Z := 86400000.

(** date-fns [startOfDay]: local midnight of the day containing [t]. *)
Definition startOfDay (t : Date) : Date := t / msPerDay * msPerDay.

(** [d = new Date(day); d.setHours(h, 0, 0, 0)]: local midnight plus [h]
    hours; an hour outside 0..23 rolls over to a neighbouring day, as in
    JavaScript. *)
Definition setHours (day : Date) (h : Z) : Date := startOfDay day + h * msPerHour.

(** date-fns [isSameDay]: the two instants have the same [startOfDay]. *)
Definition isSameDay (a b : Date) : bool := startOfDay a =? startOfDay b.

(** date-fns [isWithinInterval(date, {start, end})]. The library is not part
    of the sources; this follows its documented behaviour: the interval
    includes both of its ends ([time >= startTime && time <= endTime]), and
    the current major versions order the two ends before comparing. *)
Definition isWithinInterval (date start end_ : Date) : bool :=
  (Z.min start end_ <=? date) && (date <=? Z.max start end_).

(** Days from 1970-01-01 to the civil date [y]-[m]-[d]. *)
Definition daysFromCivil (y m d : Z) : Z :=
  let y' := if m <=? 2 then y - 1 else y in
  let era := y' / 400 in
  let yoe := y' - era * 400 in
  let doy := (153 * (if 2 <? m then m - 3 else m + 9) + 2) / 5 + d - 1 in
  let doe := yoe * 365 + yoe / 4 - yoe / 100 + doy in
  era * 146097 + doe - 719468.

(** The instant [new Date("y-m-dThh:mm")] denotes (a [datetime-local]
    string is read as local time). *)
Definition dateTimeLocal (y m d hh mm : Z) : Date :=
  daysFromCivil y m d * msPerDay + hh * msPerHour + mm * 60000.

(** ** Entities (types/index.ts) *)

Inductive DriverStatus : Type := available | assigned | on_leave.

Definition DriverStatus_eqb (a b : DriverStatus) : bool :=
  match a, b with
  | available, available | assigned, assigned | on_leave, on_leave => true
  | _, _ => false
  end.

Module Driver.
Record t : Type := mk {
  id : string;
  name : string;
  phone : string;
  licenseId : string;
  status : DriverStatus;
  createdAt : Date;
  updatedAt : Date
}.
End Driver.

(** The [Route] interface that the stores and pages use is not among the
    sources (the [types] file at hand predates it); its fields are the ones
    routeStore.ts, RouteForm.tsx and the pages read and write. *)
Module Route.
Record t : Type := mk {
  id : string;
  routeCode : string;
  origin : string;
  destination : string;
  startTime : Date;
  endTime : Date;
  assignedDriverId : option string;
  createdAt : Date;
  updatedAt : Date
}.
End Route.

(** [route.assignedDriverId === driverId] for a string [driverId]. *)
Definition assignedTo (route : Route.t) (driverId : string) : bool :=
  match Route.assignedDriverId route with
  | Some a => (a =? driverId)%string
  | None => false
  end.

(** JavaScript truthiness of [route.assignedDriverId]: [undefined] and the
    empty string are falsy. *)
Definition truthy (x : option string) : bool :=
  match x with
  | Some a => negb (a =? "")%string
  | None => false
  end.

(** ** Calendar availability (pages/Calendar.tsx) *)

Module TimeSlot.
Record t : Type := mk { hour : Z; label : string; isAM : bool }.
End TimeSlot.

Module DriverAvailability.
Record t : Type := mk {
  driver : Driver.t;
  status : DriverStatus;
  route : option Route.t
}.
End DriverAvailability.

(** The callback of [routes.find] in [getDriverAvailability]. *)
Definition routeCoversSlot (driver : Driver.t) (day : Date) (timeSlot : TimeSlot.t)
    (route : Route.t) : bool :=
  if negb (assignedTo route (Driver.id driver)) then false else
  let routeStart := Route.startTime route in
  let routeEnd := Route.endTime route in
  if negb (isSameDay routeStart day) then false else
  let slotStart := setHours day (TimeSlot.hour timeSlot) in
  let slotEnd := setHours day (TimeSlot.hour timeSlot + 1) in
  isWithinInterval slotStart routeStart routeEnd
  || isWithinInterval routeStart slotStart slotEnd.

Definition getDriverAvailability (routes : list Route.t) (driver : Driver.t)
    (day : Date) (timeSlot : TimeSlot.t) : DriverAvailability.t :=
  if DriverStatus_eqb (Driver.status driver) on_leave then
    DriverAvailability.mk driver on_leave None
  else
    match find (routeCoversSlot driver day timeSlot) routes with
    | Some assignedRoute => DriverAvailability.mk driver assigned (Some assignedRoute)
    | None => DriverAvailability.mk driver available None
    end.

(** The hourly slots of the grid, 6 AM to 10 PM. *)
Definition slotLabel (h : Z) : string :=
  let digits (n : Z) :=
    if n <? 10 then String (ascii_of_nat (48 + Z.to_nat n)) ""
    else String "1" (String (ascii_of_nat (48 + Z.to_nat (n - 10))) "") in
  if h =? 12 then "12 PM"
  else if 12 <? h then (digits (h - 12) ++ " PM")%string
  else (digits h ++ " AM")%string.

Definition timeSlots : list TimeSlot.t :=
  map (fun h => TimeSlot.mk h (slotLabel h) (h <? 12))
      (map (fun i => 6 + Z.of_nat i) (seq 0 17)).

(** The overlap test in the words of the specification: the slot start lies
    in the closed interval from route start to route end, or the route start
    lies in the half-open interval from slot start to slot end. *)
Definition spec_overlap (routeStart routeEnd slotStart slotEnd : Date) : Prop :=
  (routeStart <= slotStart <= routeEnd) \/ (slotStart <= routeStart < slotEnd).

Definition spec_route_matches (driver : Driver.t) (day : Date) (h : Z)
    (route : Route.t) : Prop :=
  Route.assignedDriverId route = Some (Driver.id driver)
  /\ startOfDay (Route.startTime route) = startOfDay day
  /\ spec_overlap (Route.startTime route) (Route.endTime route)
                  (setHours day h) (setHours day (h + 1)).

(** What the code tests: as above, with the slot's interval closed at its
    end as well. *)
Definition code_overlap (routeStart routeEnd slotStart slotEnd : Date) : Prop :=
  (routeStart <= slotStart <= routeEnd) \/ (slotStart <= routeStart <= slotEnd).

Definition code_route_matches (driver : Driver.t) (day : Date) (h : Z)
    (route : Route.t) : Prop :=
  Route.assignedDriverId route = Some (Driver.id driver)
  /\ startOfDay (Route.startTime route) = startOfDay day
  /\ code_overlap (Route.startTime route) (Route.endTime route)
                  (setHours day h) (setHours day (h + 1)).

(** ** Dashboard search and filters (pages/Dashboard.tsx) *)

(** [String.prototype.toLowerCase], on the ASCII letters. *)
Definition toLowerAscii (c : ascii) : ascii :=
  let n := nat_of_ascii c in
  if ((65 <=? n) && (n <=? 90))%nat then ascii_of_nat (n + 32) else c.

Fixpoint toLowerCase (s : string) : string :=
  match s with
  | EmptyString => EmptyString
  | String c s' => String (toLowerAscii c) (toLowerCase s')
  end.

(** [s.startsWith(search)]. *)
Fixpoint startsWith (s search : string) : bool :=
  match search, s with
  | EmptyString, _ => true
  | String _ _, EmptyString => false
  | String c search', String d s' => Ascii.eqb c d && startsWith s' search'
  end.

(** [s.includes(search)]: [search] occurs in [s] at some position. *)
Fixpoint includes (s search : string) : bool :=
  if startsWith s search then true
  else match s with
       | EmptyString => false
       | String _ s' => includes s' search
       end.

(** A non-empty string is truthy. *)
Definition nonEmpty (s : string) : bool := negb (s =? "")%string.

Inductive RouteFilter : Type := RF_all | RF_assigned | RF_unassigned.
Inductive DriverFilter : Type := DF_all | DF_available | DF_assigned | DF_on_leave.

(** The callback of the search filter over drivers. *)
Definition driverMatchesSearch (driverSearch : string) (driver : Driver.t) : bool :=
  includes (toLowerCase (Driver.name driver)) (toLowerCase driverSearch)
  || includes (toLowerCase (Driver.licenseId driver)) (toLowerCase driverSearch)
  || includes (Driver.phone driver) driverSearch.

(** The callback of the search filter over routes. *)
Definition routeMatchesSearch (routeSearch : string) (route : Route.t) : bool :=
  includes (toLowerCase (Route.routeCode route)) (toLowerCase routeSearch)
  || includes (toLowerCase (Route.origin route)) (toLowerCase routeSearch)
  || includes (toLowerCase (Route.destination route)) (toLowerCase routeSearch).

(** "Apply search filter": skipped when the search box is empty. *)
Definition searchDrivers (driverSearch : string) (filtered : list Driver.t) : list Driver.t :=
  if nonEmpty driverSearch then filter (driverMatchesSearch driverSearch) filtered
  else filtered.

Definition searchRoutes (routeSearch : string) (filtered : list Route.t) : list Route.t :=
  if nonEmpty routeSearch then filter (routeMatchesSearch routeSearch) filtered
  else filtered.

(** "Apply status filter": the [switch] on the selected filter. *)
Definition statusFilterDrivers (driverFilter : DriverFilter) (filtered : list Driver.t)
    : list Driver.t :=
  match driverFilter with
  | DF_available => filter (fun driver => DriverStatus_eqb (Driver.status driver) available) filtered
  | DF_assigned => filter (fun driver => DriverStatus_eqb (Driver.status driver) assigned) filtered
  | DF_on_leave => filter (fun driver => DriverStatus_eqb (Driver.status driver) on_leave) filtered
  | DF_all => filtered
  end.

Definition statusFilterRoutes (routeFilter : RouteFilter) (filtered : list Route.t)
    : list Route.t :=
  match routeFilter with
  | RF_assigned => filter (fun route => truthy (Route.assignedDriverId route)) filtered
  | RF_unassigned => filter (fun route => negb (truthy (Route.assignedDriverId route))) filtered
  | RF_all => filtered
  end.

(** The two memoised projections of the dashboard: search, then status. *)
Definition filteredDrivers (drivers : list Driver.t) (driverFilter : DriverFilter)
    (driverSearch : string) : list Driver.t :=
  statusFilterDrivers driverFilter (searchDrivers driverSearch drivers).

Definition filteredRoutes (routes : list Route.t) (routeFilter : RouteFilter)
    (routeSearch : string) : list Route.t :=
  statusFilterRoutes routeFilter (searchRoutes routeSearch routes).

(** [sub] occurs in [s] as a substring. *)
Definition occurs (sub s : string) : Prop :=
  exists pre post, s = (pre ++ sub ++ post)%string.

(** [query] occurs in [s] up to letter case: some substring of [s] differs
    from [query] only in the case of its letters. *)
Definition occurs_ci (query s : string) : Prop :=
  exists pre mid post,
    s = (pre ++ mid ++ post)%string /\ toLowerCase mid = toLowerCase query.

(** A string without ASCII letters, as a validated phone number is (the
    form accepts an optional [+], digits and white space). *)
Definition isLetter (c : ascii) : bool :=
  let n := nat_of_ascii c in
  (((65 <=? n) && (n <=? 90)) || ((97 <=? n) && (n <=? 122)))%nat.

Fixpoint noLetters (s : string) : bool :=
  match s with
  | EmptyString => true
  | String c s' => negb (isLetter c) && noLetters s'
  end.

(** A text made of ASCII characters only (codes below 128). *)
Fixpoint asciiOnly (s : string) : bool :=
  match s with
  | EmptyString => true
  | String c s' => (nat_of_ascii c <? 128)%nat && asciiOnly s'
  end.

(** The callback of the search filter over drivers, with
    [String.prototype.toLowerCase] as a parameter: [lower] stands for it on
    all texts, ASCII or not. [driverMatchesSearch] above is the instance
    with the ASCII lowering. *)
Definition driverMatchesSearchWith (lower : string -> string)
    (driverSearch : string) (driver : Driver.t) : bool :=
  includes (lower (Driver.name driver)) (lower driverSearch)
  || includes (lower (Driver.licenseId driver)) (lower driverSearch)
  || includes (Driver.phone driver) driverSearch.

Definition searchDriversWith (lower : string -> string)
    (driverSearch : string) (filtered : list Driver.t) : list Driver.t :=
  if nonEmpty driverSearch then filter (driverMatchesSearchWith lower driverSearch) filtered
  else filtered.

(** ** The stores (store/driverStore.ts, store/routeStore.ts) *)

(** [Omit<Driver, 'id' | 'createdAt' | 'updatedAt'>] *)
Module DriverInput.
Record t : Type := mk {
  name : string;
  phone : string;
  licenseId : string;
  status : DriverStatus
}.
End DriverInput.

(** [Partial<Omit<Driver, 'id' | 'createdAt' | 'updatedAt'>>]: [None] is a
    key the patch does not carry. *)
Module DriverUpdates.
Record t : Type := mk {
  name : option string;
  phone : option string;
  licenseId : option string;
  status : option DriverStatus
}.
End DriverUpdates.

(** [Omit<Route, 'id' | 'createdAt' | 'updatedAt'>] *)
Module RouteInput.
Record t : Type := mk {
  routeCode : string;
  origin : string;
  destination : string;
  startTime : Date;
  endTime : Date;
  assignedDriverId : option string
}.
End RouteInput.

(** [Partial<Omit<Route, 'id' | 'createdAt' | 'updatedAt'>>]; a patch may
    carry [assignedDriverId: undefined], which is [Some None]. *)
Module RouteUpdates.
Record t : Type := mk {
  routeCode : option string;
  origin : option string;
  destination : option string;
  startTime : option Date;
  endTime : option Date;
  assignedDriverId : option (option string)
}.
End RouteUpdates.

(** Everything the store actions read or write: the two collections, how
    many times the clock and the id generator have been asked, and the
    lines written to the console. *)
Record World : Type := mkWorld {
  drivers : list Driver.t;
  routes : list Route.t;
  clockReads : nat;
  uuidCalls : nat;
  console : list string
}.

(** Both stores start empty. *)
Definition initialWorld : World := mkWorld [] [] 0 0 [].

(** The environment of the stores: the successive readings of the clock
    ([new Date()]) and the successive results of [uuidv4()]. *)
Record Env : Type := mkEnv {
  now : nat -> Date;
  uuidv4 : nat -> string
}.

(** A store action: a computation over the world. *)
Definition Store (A : Type) : Type := World -> A * World.

Definition ret {A} (a : A) : Store A := fun w => (a, w).

Definition bind {A B} (c : Store A) (k : A -> Store B) : Store B :=
  fun w => let (a, w') := c w in k a w'.

Notation "x <- c ;; k" := (bind c (fun x => k))
  (at level 61, c at next level, right associativity).
Notation "c ;; k" := (bind c (fun _ => k))
  (at level 61, right associativity).

Definition exec {A} (c : Store A) (w : World) : World := snd (c w).
Definition eval {A} (c : Store A) (w : World) : A := fst (c w).

(** [get()] *)
Definition get : Store World := fun w => (w, w).

(** [set(state => ({ drivers: f(state.drivers) }))] *)
Definition setDrivers (f : list Driver.t -> list Driver.t) : Store unit :=
  fun w => (tt, mkWorld (f (drivers w)) (routes w) (clockReads w) (uuidCalls w) (console w)).

(** [set(state => ({ routes: f(state.routes) }))] *)
Definition setRoutes (f : list Route.t -> list Route.t) : Store unit :=
  fun w => (tt, mkWorld (drivers w) (f (routes w)) (clockReads w) (uuidCalls w) (console w)).

(** [console.log(line)] *)
Definition console_log (line : string) : Store unit :=
  fun w => (tt, mkWorld (drivers w) (routes w) (clockReads w) (uuidCalls w) (console w ++ [line])).

(** [arr.map(f)] for a callback with effects, left to right. *)
Fixpoint mapM {A B} (f : A -> Store B) (l : list A) : Store (list B) :=
  match l with
  | [] => ret []
  | x :: l' => y <- f x ;; ys <- mapM f l' ;; ret (y :: ys)
  end.

(** A key of the patch overrides the field when it is present. *)
Definition override {A} (patch : option A) (old : A) : A :=
  match patch with
  | Some v => v
  | None => old
  end.

Section Actions.

Context (env : Env).

(** [new Date()]: the next reading of the clock. *)
Definition newDate : Store Date :=
  fun w => (now env (clockReads w),
            mkWorld (drivers w) (routes w) (S (clockReads w)) (uuidCalls w) (console w)).

(** [uuidv4()]: the next generated identifier. *)
Definition uuid : Store string :=
  fun w => (uuidv4 env (uuidCalls w),
            mkWorld (drivers w) (routes w) (clockReads w) (S (uuidCalls w)) (console w)).

Definition getDriver (id : string) : Store (option Driver.t) :=
  state <- get ;;
  ret (find (fun driver => (Driver.id driver =? id)%string) (drivers state)).

Definition getDriversByStatus (status : DriverStatus) : Store (list Driver.t) :=
  state <- get ;;
  ret (filter (fun driver => DriverStatus_eqb (Driver.status driver) status) (drivers state)).

Definition addDriver (driver : DriverInput.t) : Store unit :=
  id <- uuid ;;
  createdAt <- newDate ;;
  updatedAt <- newDate ;;
  let newDriver :=
    Driver.mk id (DriverInput.name driver) (DriverInput.phone driver)
              (DriverInput.licenseId driver) (DriverInput.status driver)
              createdAt updatedAt in
  setDrivers (fun ds => ds ++ [newDriver]) ;;
  console_log ("Driver added: " ++ Driver.name newDriver
               ++ " (" ++ Driver.id newDriver ++ ")")%string.

(** [{ ...driver, ...updates, updatedAt }] *)
Definition patchDriver (driver : Driver.t) (updates : DriverUpdates.t) (updatedAt : Date)
    : Driver.t :=
  Driver.mk (Driver.id driver)
            (override (DriverUpdates.name updates) (Driver.name driver))
            (override (DriverUpdates.phone updates) (Driver.phone driver))
            (override (DriverUpdates.licenseId updates) (Driver.licenseId driver))
            (override (DriverUpdates.status updates) (Driver.status driver))
            (Driver.createdAt driver)
            updatedAt.

Definition updateDriver (id : string) (updates : DriverUpdates.t) : Store unit :=
  state <- get ;;
  ds <- mapM (fun driver =>
                if (Driver.id driver =? id)%string
                then updatedAt <- newDate ;; ret (patchDriver driver updates updatedAt)
                else ret driver)
             (drivers state) ;;
  setDrivers (fun _ => ds) ;;
  driver <- getDriver id ;;
  match driver with
  | Some driver =>
      console_log ("Driver updated: " ++ Driver.name driver ++ " (" ++ id ++ ")")%string
  | None => ret tt
  end.

Definition deleteDriver (id : string) : Store unit :=
  driver <- getDriver id ;;
  setDrivers (filter (fun driver => negb (Driver.id driver =? id)%string)) ;;
  match driver with
  | Some driver =>
      console_log ("Driver deleted: " ++ Driver.name driver ++ " (" ++ id ++ ")")%string
  | None => ret tt
  end.

Definition getRoute (id : string) : Store (option Route.t) :=
  state <- get ;;
  ret (find (fun route => (Route.id route =? id)%string) (routes state)).

Definition getRoutesByDriver (driverId : string) : Store (list Route.t) :=
  state <- get ;;
  ret (filter (fun route => assignedTo route driverId) (routes state)).

Definition getUnassignedRoutes : Store (list Route.t) :=
  state <- get ;;
  ret (filter (fun route => negb (truthy (Route.assignedDriverId route))) (routes state)).

Definition addRoute (route : RouteInput.t) : Store unit :=
  id <- uuid ;;
  createdAt <- newDate ;;
  updatedAt <- newDate ;;
  let newRoute :=
    Route.mk id (RouteInput.routeCode route) (RouteInput.origin route)
             (RouteInput.destination route) (RouteInput.startTime route)
             (RouteInput.endTime route) (RouteInput.assignedDriverId route)
             createdAt updatedAt in
  setRoutes (fun rs => rs ++ [newRoute]) ;;
  console_log ("Route added: " ++ Route.routeCode newRoute
               ++ " (" ++ Route.id newRoute ++ ")")%string.

(** [{ ...route, ...updates, updatedAt }] *)
Definition patchRoute (route : Route.t) (updates : RouteUpdates.t) (updatedAt : Date)
    : Route.t :=
  Route.mk (Route.id route)
           (override (RouteUpdates.routeCode updates) (Route.routeCode route))
           (override (RouteUpdates.origin updates) (Route.origin route))
           (override (RouteUpdates.destination updates) (Route.destination route))
           (override (RouteUpdates.startTime updates) (Route.startTime route))
           (override (RouteUpdates.endTime updates) (Route.endTime route))
           (override (RouteUpdates.assignedDriverId updates) (Route.assignedDriverId route))
           (Route.createdAt route)
           updatedAt.

Definition updateRoute (id : string) (updates : RouteUpdates.t) : Store unit :=
  state <- get ;;
  rs <- mapM (fun route =>
                if (Route.id route =? id)%string
                then updatedAt <- newDate ;; ret (patchRoute route updates updatedAt)
                else ret route)
             (routes state) ;;
  setRoutes (fun _ => rs) ;;
  route <- getRoute id ;;
  match route with
  | Some route =>
      console_log ("Route updated: " ++ Route.routeCode route ++ " (" ++ id ++ ")")%string
  | None => ret tt
  end.

Definition deleteRoute (id : string) : Store unit :=
  route <- getRoute id ;;
  setRoutes (filter (fun route => negb (Route.id route =? id)%string)) ;;
  match route with
  | Some route =>
      console_log ("Route deleted: " ++ Route.routeCode route ++ " (" ++ id ++ ")")%string
  | None => ret tt
  end.

End Actions.

(** ** Vocabulary of the store properties *)

(** The world after [k] more readings of the clock. *)
Definition advance (k : nat) (w : World) : World :=
  mkWorld (drivers w) (routes w) (k + clockReads w) (uuidCalls w) (console w).

(** The clock never goes back. *)
Definition monotoneClock (env : Env) : Prop :=
  forall n m, (n <= m)%nat -> now env n <= now env m.

(** The generator never repeats an identifier, and never yields the empty
    string. *)
Definition freshIds (env : Env) : Prop :=
  (forall n m, uuidv4 env n = uuidv4 env m -> n = m)
  /\ (forall n, uuidv4 env n <> "").

(** No stored driver was modified later than the next reading of the clock. *)
Definition driversInPast (env : Env) (w : World) : Prop :=
  Forall (fun d => Driver.updatedAt d <= now env (clockReads w)) (drivers w).

(** Every stored driver carries an identifier that the generator has
    already yielded. *)
Definition driverIdsIssued (env : Env) (w : World) : Prop :=
  Forall (fun d => exists n, (n < uuidCalls w)%nat /\ Driver.id d = uuidv4 env n) (drivers w).

(** The two facts that every action of the stores preserves. *)
Definition storeInvariant (env : Env) (w : World) : Prop :=
  driversInPast env w /\ driverIdsIssued env w.

(** The worlds that the store actions can lead to from the empty stores. *)
Inductive reachable (env : Env) : World -> Prop :=
| reach_initial : reachable env initialWorld
| reach_addDriver w input :
    reachable env w -> reachable env (exec (addDriver env input) w)
| reach_updateDriver w id updates :
    reachable env w -> reachable env (exec (updateDriver env id updates) w)
| reach_deleteDriver w id :
    reachable env w -> reachable env (exec (deleteDriver id) w)
| reach_addRoute w input :
    reachable env w -> reachable env (exec (addRoute env input) w)
| reach_updateRoute w id updates :
    reachable env w -> reachable env (exec (updateRoute env id updates) w)
| reach_deleteRoute w id :
    reachable env w -> reachable env (exec (deleteRoute id) w).

(** [d'] is [d] put on leave: status and updatedAt are the only fields that
    may differ, and updatedAt has not decreased. *)
Definition putOnLeave (d d' : Driver.t) : Prop :=
  Driver.id d' = Driver.id d
  /\ Driver.name d' = Driver.name d
  /\ Driver.phone d' = Driver.phone d
  /\ Driver.licenseId d' = Driver.licenseId d
  /\ Driver.createdAt d' = Driver.createdAt d
  /\ Driver.status d' = on_leave
  /\ Driver.updatedAt d <= Driver.updatedAt d'.

(** Every assignment points to a driver of the collection, and no driver
    has the empty id. *)
Definition referencesResolve (w : World) : Prop :=
  (forall d, In d (drivers w) -> Driver.id d <> "")
  /\ (forall r a, In r (routes w) -> Route.assignedDriverId r = Some a ->
                  exists d, In d (drivers w) /\ Driver.id d = a).

(** ** Sample data used in the examples below *)

Definition jan1 : Date := dateTimeLocal 2024 1 1 0 0.

Definition jane : Driver.t :=
  Driver.mk "d1" "Jane Doe" "+15551234567" "LIC123" available 0 0.

Definition janeOnLeave : Driver.t :=
  Driver.mk "d1" "Jane Doe" "+15551234567" "LIC123" on_leave 0 0.

Definition route_0800_1000 : Route.t :=
  Route.mk "r1" "RT001" "A" "B"
           (dateTimeLocal 2024 1 1 8 0) (dateTimeLocal 2024 1 1 10 0) (Some "d1") 0 0.

Definition route_1000_1200 : Route.t :=
  Route.mk "r2" "RT002" "B" "C"
           (dateTimeLocal 2024 1 1 10 0) (dateTimeLocal 2024 1 1 12 0) (Some "d1") 0 0.

Definition route_0830_0930 : Route.t :=
  Route.mk "r3" "RT003" "C" "D"
           (dateTimeLocal 2024 1 1 8 30) (dateTimeLocal 2024 1 1 9 30) (Some "d1") 0 0.

Definition route_2330_2350 : Route.t :=
  Route.mk "r4" "RT004" "D" "E"
           (dateTimeLocal 2024 1 1 23 30) (dateTimeLocal 2024 1 1 23 50) (Some "d1") 0 0.

Definition vanity : Driver.t :=
  Driver.mk "d2" "Sam Roe" "1800FLOWERS" "DL-77A" assigned 0 0.

(** A clock that advances by one millisecond at every reading, and an id
    generator that numbers its results. *)
Definition sampleEnv : Env :=
  mkEnv (fun n => dateTimeLocal 2024 1 1 7 0 + Z.of_nat n)
        (fun n => String (ascii_of_nat (48 + n)) "-uuid").

(** An id generator that never repeats itself: "u", "ui", "uii", ... *)
Fixpoint tally (n : nat) : string :=
  match n with
  | O => EmptyString
  | S k => String "i" (tally k)
  end.

Definition tallyEnv : Env :=
  mkEnv (fun n => dateTimeLocal 2024 1 1 7 0 + Z.of_nat n)
        (fun n => String "u" (tally n)).

Definition janeInput : DriverInput.t :=
  DriverInput.mk "Jane Doe" "+15551234567" "LIC123" available.

Definition samInput : DriverInput.t :=
  DriverInput.mk "Sam Roe" "+15557654321" "DL-77A" available.

Definition routeInputFor (driverId : option string) : RouteInput.t :=
  RouteInput.mk "RT001" "A" "B"
                (dateTimeLocal 2024 1 1 8 0) (dateTimeLocal 2024 1 1 10 0) driverId.

Definition onLeavePatch : DriverUpdates.t :=
  DriverUpdates.mk None None None (Some on_leave).

Definition assignedPatch : DriverUpdates.t :=
  DriverUpdates.mk None None None (Some assigned).

Definition reassignPatch (driverId : option string) : RouteUpdates.t :=
  RouteUpdates.mk None None None None None (Some driverId).

(** Jane and Sam registered, then a route created for Jane: the two steps
    of RouteForm's submit handler. *)
Definition sampleActions : Store unit :=
  addDriver sampleEnv janeInput ;;
  addDriver sampleEnv samInput ;;
  addRoute sampleEnv (routeInputFor (Some "0-uuid")) ;;
  updateDriver sampleEnv "0-uuid" assignedPatch.

(** The world those actions lead to from the empty stores. *)
Definition sampleWorld : World := Eval vm_compute in exec sampleActions initialWorld.

(** The same, after Jane has been deleted: her route keeps her id. *)
Definition danglingWorld : World := Eval vm_compute in exec (deleteDriver "0-uuid") sampleWorld.

(** Jane and a route for her, with the generator that never repeats itself. *)
Definition tallyWorld : World :=
  Eval vm_compute in
    exec (addRoute tallyEnv (routeInputFor (Some "u")))
         (exec (addDriver tallyEnv janeInput) initialWorld).

Definition slotAt (h : Z) : TimeSlot.t := TimeSlot.mk h (slotLabel h) (h <? 12).

(** ** Week navigation of the calendar (pages/Calendar.tsx) *)

(** The functions of this part move dates by calendar days, which the Date
    object does on local time. Here a Date object is its time value, the
    milliseconds since the epoch in UTC, [None] for the NaN of an Invalid
    Date, and the time zone of the browser is a parameter. *)
Module TimeZone.
(** [atInstant u] is the offset of local time from UTC in force at the time
    value [u] (LocalTZA(u, true)). [atLocal l] is the offset with which the
    local time [l] is read (LocalTZA(l, false)): for a local time that a
    transition skips, the offset in force before the transition. *)
Record t : Type := mk {
  atInstant : Z -> Z;
  atLocal : Z -> Z
}.

(** A zone whose offset never changes. *)
Definition constant (tz : t) (offset : Z) : Prop :=
  (forall u, atInstant tz u = offset) /\ (forall l, atLocal tz l = offset).

Definition fixed (offset : Z) : t := mk (fun _ => offset) (fun _ => offset).
End TimeZone.

(** ECMAScript's LocalTime, UTC and TimeClip. *)
Definition LocalTime (tz : TimeZone.t) (u : Z) : Z := u + TimeZone.atInstant tz u.
Definition UTC (tz : TimeZone.t) (l : Z) : Z := l - TimeZone.atLocal tz l.

Definition maxTime : Z := 8640000000000000.

Definition TimeClip (time : Z) : option Z :=
  if Z.abs time <=? maxTime then Some time else None.

(** ECMAScript's WeekDay of a local time, the value of
    [Date.prototype.getDay]: 0 is Sunday; the epoch day, 1970-01-01, is a
    Thursday. *)
Definition getDay (t : Date) : Z := (t / msPerDay + 4) mod 7.

(** [date.setDate(date.getDate() + amount)]: the local time moves by
    [amount] days and is read back in the zone. *)
Definition setDate_plus (tz : TimeZone.t) (date : option Z) (amount : Z) : option Z :=
  match date with
  | Some u => TimeClip (UTC tz (LocalTime tz u + amount * msPerDay))
  | None => None
  end.

(** [date.setHours(0, 0, 0, 0)] *)
Definition setHours_0 (tz : TimeZone.t) (date : option Z) : option Z :=
  match date with
  | Some u => TimeClip (UTC tz (startOfDay (LocalTime tz u)))
  | None => None
  end.

(** date-fns [startOfWeek(date, { weekStartsOn })]: back to the last day
    whose [getDay] is [weekStartsOn], at local midnight. *)
Definition startOfWeek (tz : TimeZone.t) (date : option Z) (weekStartsOn : Z) : option Z :=
  match date with
  | Some u =>
      let day := getDay (LocalTime tz u) in
      let diff := (if day <? weekStartsOn then 7 else 0) + day - weekStartsOn in
      setHours_0 tz (setDate_plus tz date (- diff))
  | None => None
  end.

(** date-fns [addDays], which returns the date as it is when [amount] is
    zero, and [addWeeks], [subWeeks]. *)
Definition addDays (tz : TimeZone.t) (date : option Z) (amount : Z) : option Z :=
  if amount =? 0 then date else setDate_plus tz date amount.
Definition addWeeks (tz : TimeZone.t) (date : option Z) (amount : Z) : option Z :=
  addDays tz date (amount * 7).
Definition subWeeks (tz : TimeZone.t) (date : option Z) (amount : Z) : option Z :=
  addWeeks tz date (- amount).

(** [Array.from({ length: 7 }, (_, i) => addDays(start, i))] *)
Definition weekDays (tz : TimeZone.t) (currentWeek : option Z) : list (option Z) :=
  let start := startOfWeek tz currentWeek 1 in
  map (fun i => addDays tz start (Z.of_nat i)) (seq 0 7).

Definition goToPreviousWeek (tz : TimeZone.t) (currentWeek : option Z) : option Z :=
  subWeeks tz currentWeek 1.
Definition goToNextWeek (tz : TimeZone.t) (currentWeek : option Z) : option Z :=
  addWeeks tz currentWeek 1.

(** The Monday, at midnight, of the week of a local time. *)
Definition mondayOf (l : Z) : Z :=
  startOfDay l - ((getDay l + 6) mod 7) * msPerDay.

(** A zone with a change of offset: two hours ahead of UTC until
    2024-04-25T22:00Z, three hours from then on, as Africa/Cairo at the
    start of summer time in 2024, when the local times from 00:00 to 01:00
    of April 26 were skipped. *)
Definition cairo2024 : TimeZone.t :=
  TimeZone.mk
    (fun u => if u <? dateTimeLocal 2024 4 25 22 0 then 2 * msPerHour else 3 * msPerHour)
    (fun l => if l <? dateTimeLocal 2024 4 26 1 0 then 2 * msPerHour else 3 * msPerHour).

(** The time value of a local time of April 2024 in that zone. *)
Definition cairoApril (d hh mm : Z) : Z := UTC cairo2024 (dateTimeLocal 2024 4 d hh mm).

(** ** Names and counters of the dashboard (pages/Dashboard.tsx, pages/Routes.tsx) *)

(** Dashboard's [getDriverName]. *)
Definition getDriverName (drivers : list Driver.t) (driverId : option string) : string :=
  if negb (truthy driverId) then ""
  else match driverId with
       | Some driverId =>
           match find (fun d => (Driver.id d =? driverId)%string) drivers with
           | Some driver => Driver.name driver
           | None => "Unknown Driver"
           end
       | None => ""
       end.

Module RoutesPage.
(** The Routes page's [getDriverName]. *)
Definition getDriverName (drivers : list Driver.t) (driverId : option string) : string :=
  if negb (truthy driverId) then "Unassigned"
  else match driverId with
       | Some driverId =>
           match find (fun d => (Driver.id d =? driverId)%string) drivers with
           | Some driver => Driver.name driver
           | None => "Unknown Driver"
           end
       | None => "Unassigned"
       end.
End RoutesPage.

Definition getAssignedRouteCode (routes : list Route.t) (driverId : string) : string :=
  match find (fun route => assignedTo route driverId) routes with
  | Some assignedRoute => Route.routeCode assignedRoute
  | None => ""
  end.

(** The four counters of the statistics cards. *)
Definition totalRoutes (routes : list Route.t) : nat := List.length routes.
Definition assignedRoutes (routes : list Route.t) : nat :=
  List.length (filter (fun route => truthy (Route.assignedDriverId route)) routes).
Definition totalDrivers (drivers : list Driver.t) : nat := List.length drivers.
Definition availableDriversCount (drivers : list Driver.t) : nat :=
  List.length (filter (fun driver => DriverStatus_eqb (Driver.status driver) available) drivers).

(** ** Navigation bar (components/Header.tsx) *)

Definition navHrefs : list string := ["/"; "/drivers"; "/routes"; "/calendar"].

Definition isActive (pathname href : string) : bool :=
  if (href =? "/")%string then (pathname =? "/")%string
  else startsWith pathname href.

(** ** Form validation (components/DriverForm.tsx, components/RouteForm.tsx,
       utils/index.ts) *)

(** The ASCII characters that [\s] and [trim] treat as white space. *)
Definition isWhitespace (c : ascii) : bool :=
  let n := nat_of_ascii c in
  (((9 <=? n) && (n <=? 13)) || (n =? 32))%nat.

Definition isDigit (c : ascii) : bool :=
  let n := nat_of_ascii c in ((48 <=? n) && (n <=? 57))%nat.

Fixpoint trimStart (s : string) : string :=
  match s with
  | EmptyString => EmptyString
  | String c s' => if isWhitespace c then trimStart s' else s
  end.

Fixpoint trimEnd (s : string) : string :=
  match s with
  | EmptyString => EmptyString
  | String c s' =>
      let t := trimEnd s' in
      if isWhitespace c && (t =? "")%string then EmptyString else String c t
  end.

(** [String.prototype.trim] *)
Definition trim (s : string) : string := trimEnd (trimStart s).

(** [s.replace(/\s/g, '')] *)
Fixpoint removeWhitespace (s : string) : string :=
  match s with
  | EmptyString => EmptyString
  | String c s' =>
      if isWhitespace c then removeWhitespace s' else String c (removeWhitespace s')
  end.

Fixpoint allDigits (s : string) : bool :=
  match s with
  | EmptyString => true
  | String c s' => isDigit c && allDigits s'
  end.

(** [/^[\+]?[1-9][\d]{0,15}$/.test(s)]: an optional plus sign, a digit
    other than zero, then at most fifteen digits, and nothing else. *)
Definition phoneRegexTest (s : string) : bool :=
  let rest := match s with
              | String "+" s' => s'
              | _ => s
              end in
  match rest with
  | String c digits =>
      isDigit c && negb (Ascii.eqb c "0") && allDigits digits
      && (String.length digits <=? 15)%nat
  | EmptyString => false
  end.

(** utils' [isValidPhone]. *)
Definition isValidPhone (phone : string) : bool :=
  phoneRegexTest (removeWhitespace phone).

(** The double quote, as a one-character string. *)
Definition dquote : string := String (ascii_of_nat 34) EmptyString.

Module DriverFormData.
Record t : Type := mk {
  name : string;
  phone : string;
  licenseId : string;
  status : DriverStatus
}.
End DriverFormData.

Module DriverFormErrors.
Record t : Type := mk {
  name : option string;
  phone : option string;
  licenseId : option string
}.
(** [Object.keys(newErrors).length === 0] *)
Definition none (e : t) : bool :=
  match name e, phone e, licenseId e with
  | None, None, None => true
  | _, _, _ => false
  end.
End DriverFormErrors.

(** The state of the DriverForm component. *)
Module DriverForm.
Record t : Type := mk {
  formData : DriverFormData.t;
  errors : DriverFormErrors.t;
  successMessage : string
}.

(** The errors that [validateForm] computes. *)
Definition validateForm (formData : DriverFormData.t) : DriverFormErrors.t :=
  DriverFormErrors.mk
    (if negb (nonEmpty (trim (DriverFormData.name formData)))
     then Some "Full name is required"
     else if (String.length (trim (DriverFormData.name formData)) <? 2)%nat
          then Some "Name must be at least 2 characters"
          else None)
    (if negb (nonEmpty (trim (DriverFormData.phone formData)))
     then Some "Phone number is required"
     else if negb (phoneRegexTest (removeWhitespace (DriverFormData.phone formData)))
          then Some "Please enter a valid phone number"
          else None)
    (if negb (nonEmpty (trim (DriverFormData.licenseId formData)))
     then Some "License ID is required"
     else if (String.length (trim (DriverFormData.licenseId formData)) <? 3)%nat
          then Some "License ID must be at least 3 characters"
          else None).

(** What [handleSubmit] passes to [addDriver]. *)
Definition driverData (formData : DriverFormData.t) : DriverInput.t :=
  DriverInput.mk (trim (DriverFormData.name formData))
                 (trim (DriverFormData.phone formData))
                 (trim (DriverFormData.licenseId formData))
                 (DriverFormData.status formData).

(** [handleSubmit]: validate, and on success add the driver, announce it and
    clear the form. (The timer that later clears the message is left out.) *)
Definition handleSubmit (env : Env) (st : t) : Store t :=
  let newErrors := validateForm (formData st) in
  if negb (DriverFormErrors.none newErrors) then
    ret (mk (formData st) newErrors (successMessage st))
  else
    addDriver env (driverData (formData st)) ;;
    ret (mk (DriverFormData.mk "" "" "" available)
            (DriverFormErrors.mk None None None)
            ("Driver " ++ dquote ++ trim (DriverFormData.name (formData st))
             ++ dquote ++ " has been added successfully!")%string).
End DriverForm.

Module RouteFormData.
(** The two [datetime-local] fields are [None] while they are empty. *)
Record t : Type := mk {
  routeCode : string;
  origin : string;
  destination : string;
  startTime : option Date;
  endTime : option Date;
  assignedDriverId : string
}.
End RouteFormData.

Module RouteFormErrors.
Record t : Type := mk {
  routeCode : option string;
  origin : option string;
  destination : option string;
  startTime : option string;
  endTime : option string
}.
Definition none (e : t) : bool :=
  match routeCode e, origin e, destination e, startTime e, endTime e with
  | None, None, None, None, None => true
  | _, _, _, _, _ => false
  end.
End RouteFormErrors.

(** The state of the RouteForm component. *)
Module RouteForm.
Record t : Type := mk {
  formData : RouteFormData.t;
  errors : RouteFormErrors.t;
  successMessage : string
}.

(** The drivers that the select of the form offers. *)
Definition availableDrivers (drivers : list Driver.t) : list Driver.t :=
  filter (fun driver => DriverStatus_eqb (Driver.status driver) available) drivers.

Definition validateForm (formData : RouteFormData.t) : RouteFormErrors.t :=
  RouteFormErrors.mk
    (if negb (nonEmpty (trim (RouteFormData.routeCode formData)))
     then Some "Route code is required"
     else if (String.length (trim (RouteFormData.routeCode formData)) <? 3)%nat
          then Some "Route code must be at least 3 characters"
          else None)
    (if negb (nonEmpty (trim (RouteFormData.origin formData)))
     then Some "Origin is required"
     else if (String.length (trim (RouteFormData.origin formData)) <? 2)%nat
          then Some "Origin must be at least 2 characters"
          else None)
    (if negb (nonEmpty (trim (RouteFormData.destination formData)))
     then Some "Destination is required"
     else if (String.length (trim (RouteFormData.destination formData)) <? 2)%nat
          then Some "Destination must be at least 2 characters"
          else None)
    (match RouteFormData.startTime formData with
     | None => Some "Start time is required"
     | Some _ => None
     end)
    (match RouteFormData.endTime formData with
     | None => Some "End time is required"
     | Some endDateTime =>
         match RouteFormData.startTime formData with
         | Some startDateTime =>
             if endDateTime <=? startDateTime
             then Some "End time must be after start time"
             else None
         | None => None
         end
     end).

(** [handleSubmit]: validate, and on success add the route, mark the chosen
    driver as assigned, announce it and clear the form. A form that passes
    the validation has both of its times, so the last case of the match is
    never taken. (The timer that later clears the message is left out.) *)
Definition handleSubmit (env : Env) (st : t) : Store t :=
  let newErrors := validateForm (formData st) in
  if negb (RouteFormErrors.none newErrors) then
    ret (mk (formData st) newErrors (successMessage st))
  else
    match RouteFormData.startTime (formData st), RouteFormData.endTime (formData st) with
    | Some startTime, Some endTime =>
        let routeData :=
          RouteInput.mk (trim (RouteFormData.routeCode (formData st)))
                        (trim (RouteFormData.origin (formData st)))
                        (trim (RouteFormData.destination (formData st)))
                        startTime endTime
                        (if nonEmpty (RouteFormData.assignedDriverId (formData st))
                         then Some (RouteFormData.assignedDriverId (formData st))
                         else None) in
        addRoute env routeData ;;
        (if nonEmpty (RouteFormData.assignedDriverId (formData st))
         then updateDriver env (RouteFormData.assignedDriverId (formData st))
                           (DriverUpdates.mk None None None (Some assigned))
         else ret tt) ;;
        ret (mk (RouteFormData.mk "" "" "" None None "")
                (RouteFormErrors.mk None None None None None)
                ("Route " ++ dquote ++ trim (RouteFormData.routeCode (formData st))
                 ++ dquote ++ " has been added successfully!")%string)
    | _, _ => ret (mk (formData st) newErrors (successMessage st))
    end.
End RouteForm.

(** The text of a [datetime-local] field, by what [new Date(text)] makes of
    it: the field is empty, or its text is read as a date, or it is a text
    that [new Date] does not read, such as the text of a year above 9999,
    and the Date object is an Invalid Date. *)
Module DateTimeLocal.
Inductive t : Type :=
| empty
| date (time : Date)
| unreadable.

(** The truthiness of the text: only the empty text is falsy. *)
Definition isSet (text : t) : bool :=
  match text with
  | empty => false
  | _ => true
  end.

(** The time value of [new Date(text)], [None] for NaN. *)
Definition getTime (text : t) : option Z :=
  match text with
  | date time => Some time
  | _ => None
  end.

(** [a <= b] on two Date objects compares their time values, and is false
    when one of them is NaN. *)
Definition leq (a b : option Z) : bool :=
  match a, b with
  | Some x, Some y => x <=? y
  | _, _ => false
  end.
End DateTimeLocal.

(** The fields of the route form as the component holds them, the two
    times as texts. *)
Module RouteFormFields.
Record t : Type := mk {
  routeCode : string;
  origin : string;
  destination : string;
  startTime : DateTimeLocal.t;
  endTime : DateTimeLocal.t;
  assignedDriverId : string
}.

(** [validateForm] of the route form, on the texts of the fields. *)
Definition validateForm (formData : t) : RouteFormErrors.t :=
  RouteFormErrors.mk
    (if negb (nonEmpty (trim (routeCode formData)))
     then Some "Route code is required"
     else if (String.length (trim (routeCode formData)) <? 3)%nat
          then Some "Route code must be at least 3 characters"
          else None)
    (if negb (nonEmpty (trim (origin formData)))
     then Some "Origin is required"
     else if (String.length (trim (origin formData)) <? 2)%nat
          then Some "Origin must be at least 2 characters"
          else None)
    (if negb (nonEmpty (trim (destination formData)))
     then Some "Destination is required"
     else if (String.length (trim (destination formData)) <? 2)%nat
          then Some "Destination must be at least 2 characters"
          else None)
    (if negb (DateTimeLocal.isSet (startTime formData))
     then Some "Start time is required"
     else None)
    (if negb (DateTimeLocal.isSet (endTime formData))
     then Some "End time is required"
     else if DateTimeLocal.isSet (startTime formData)
             && DateTimeLocal.isSet (endTime formData)
          then let startDateTime := DateTimeLocal.getTime (startTime formData) in
               let endDateTime := DateTimeLocal.getTime (endTime formData) in
               if DateTimeLocal.leq endDateTime startDateTime
               then Some "End time must be after start time"
               else None
          else None).

(** Both times are empty or read as dates. *)
Definition readable (formData : t) : bool :=
  match startTime formData, endTime formData with
  | DateTimeLocal.unreadable, _ | _, DateTimeLocal.unreadable => false
  | _, _ => true
  end.

(** The form data with its times read. *)
Definition read (formData : t) : RouteFormData.t :=
  RouteFormData.mk (routeCode formData) (origin formData) (destination formData)
                   (DateTimeLocal.getTime (startTime formData))
                   (DateTimeLocal.getTime (endTime formData))
                   (assignedDriverId formData).
End RouteFormFields.

(** ** Worlds reachable through the two forms

    The pages call the stores only from the two submit handlers. The select
    of RouteForm holds either the empty value or the id of one of the
    drivers it offers, the available ones. *)
Inductive formReachable (env : Env) : World -> Prop :=
| form_initial : formReachable env initialWorld
| form_driver w st :
    formReachable env w ->
    formReachable env (exec (DriverForm.handleSubmit env st) w)
| form_route w st :
    formReachable env w ->
    RouteFormData.assignedDriverId (RouteForm.formData st) = ""
    \/ (exists d, In d (RouteForm.availableDrivers (drivers w))
                  /\ Driver.id d = RouteFormData.assignedDriverId (RouteForm.formData st)) ->
    formReachable env (exec (RouteForm.handleSubmit env st) w).

(** Every driver that a route points to has the status [assigned]. *)
Definition referencedAreAssigned (w : World) : Prop :=
  forall r d, In r (routes w) -> In d (drivers w) ->
              Route.assignedDriverId r = Some (Driver.id d) ->
              Driver.status d = assigned.

(** Identifiers are unique within each collection. *)
Definition uniqueIds (w : World) : Prop :=
  NoDup (map Driver.id (drivers w)) /\ NoDup (map Route.id (routes w)).

(** Every stored route carries an identifier that the generator has
    already yielded. *)
Definition routeIdsIssued (env : Env) (w : World) : Prop :=
  Forall (fun r => exists n, (n < uuidCalls w)%nat /\ Route.id r = uuidv4 env n) (routes w).

(** Every entity was created no later than it was last modified, and
    last modified no later than the next reading of the clock. *)
Definition stampsInOrder (env : Env) (w : World) : Prop :=
  Forall (fun d => Driver.createdAt d <= Driver.updatedAt d
                   /\ Driver.updatedAt d <= now env (clockReads w)) (drivers w)
  /\ Forall (fun r => Route.createdAt r <= Route.updatedAt r
                      /\ Route.updatedAt r <= now env (clockReads w)) (routes w).

(** No entity was modified before it was created. *)
Definition createdBeforeUpdated (w : World) : Prop :=
  Forall (fun d => Driver.createdAt d <= Driver.updatedAt d) (drivers w)
  /\ Forall (fun r => Route.createdAt r <= Route.updatedAt r) (routes w).


(** ** Sample forms *)

Definition janeFormState : DriverForm.t :=
  DriverForm.mk (DriverFormData.mk "  Jane Doe " " +1 555 123 4567" "LIC123 " available)
                (DriverFormErrors.mk None None None) "".

Definition badFormState : DriverForm.t :=
  DriverForm.mk (DriverFormData.mk "J" "1800FLOWERS" "LIC123" available)
                (DriverFormErrors.mk None None None) "".

(** A route form filled in for the driver with the given id ([""] is the
    empty choice of the select), from [startHour] to [endHour] of 2024-01-01. *)
Definition routeFormState (driverId : string) (startHour endHour : Z) : RouteForm.t :=
  RouteForm.mk (RouteFormData.mk " RT001" "A1 " "B2"
                                 (Some (dateTimeLocal 2024 1 1 startHour 0))
                                 (Some (dateTimeLocal 2024 1 1 endHour 0))
                                 driverId)
               (RouteFormErrors.mk None None None None None) "".

(** The fields of a route form, with the given texts of its two times. *)
Definition routeFields (driverId : string) (startTime endTime : DateTimeLocal.t)
  : RouteFormFields.t :=
  RouteFormFields.mk " RT001" "A1 " "B2" startTime endTime driverId.

Definition at_hour (hour : Z) : DateTimeLocal.t :=
  DateTimeLocal.date (dateTimeLocal 2024 1 1 hour 0).

(** Jane registered through the driver form, then a route created for her
    through the route form, with the generator that never repeats itself. *)
Definition formWorld : World :=
  Eval vm_compute in
    exec (RouteForm.handleSubmit tallyEnv (routeFormState "u" 8 10))
         (exec (DriverForm.handleSubmit tallyEnv janeFormState) initialWorld).

(** ** Properties of the calendar classification *)

Lemma DriverStatus_eqb_eq (a b : DriverStatus) :
  DriverStatus_eqb a b = true <-> a = b.
Proof. destruct a, b; simpl; split; congruence. Qed.

Lemma DriverStatus_eqb_neq (a b : DriverStatus) :
  DriverStatus_eqb a b = false <-> a <> b.
Proof. destruct a, b; simpl; split; congruence. Qed.

Lemma isWithinInterval_closed (date start end_ : Date) :
  start <= end_ ->
  (isWithinInterval date start end_ = true <-> start <= date <= end_).
Proof.
  intros Hle. unfold isWithinInterval.
  rewrite andb_true_iff, !Z.leb_le.
  rewrite Z.min_l, Z.max_r by assumption. tauto.
Qed.

Lemma setHours_succ (day : Date) (h : Z) :
  setHours day (h + 1) = setHours day h + msPerHour.
Proof. unfold setHours, msPerHour, Date. lia. Qed.

Lemma setHours_le_succ (day : Date) (h : Z) :
  setHours day h <= setHours day (h + 1).
Proof. rewrite setHours_succ. unfold msPerHour. lia. Qed.

Lemma assignedTo_eq (route : Route.t) (driverId : string) :
  assignedTo route driverId = true <-> Route.assignedDriverId route = Some driverId.
Proof.
  unfold assignedTo. destruct (Route.assignedDriverId route) as [a|].
  - rewrite String.eqb_eq. split; congruence.
  - split; discriminate.
Qed.

(** On a route that does not end before it starts, the callback of [find]
    decides the closed two-sided containment test. *)
Lemma routeCoversSlot_closed (driver : Driver.t) (day : Date) (timeSlot : TimeSlot.t)
    (route : Route.t) :
  Route.startTime route <= Route.endTime route ->
  (routeCoversSlot driver day timeSlot route = true
   <-> code_route_matches driver day (TimeSlot.hour timeSlot) route).
Proof.
  intros Hle. unfold routeCoversSlot, code_route_matches, code_overlap, isSameDay.
  rewrite <- assignedTo_eq.
  destruct (assignedTo route (Driver.id driver)); simpl.
  2: { split; [discriminate | intros [H _]; discriminate]. }
  destruct (Z.eqb_spec (startOfDay (Route.startTime route)) (startOfDay day)) as [Hd|Hd]; simpl.
  2: { split; [discriminate | intros (_ & H & _); contradiction]. }
  rewrite orb_true_iff.
  rewrite (isWithinInterval_closed _ _ _ Hle).
  rewrite (isWithinInterval_closed _ _ _ (setHours_le_succ day (TimeSlot.hour timeSlot))).
  tauto.
Qed.

(** [find] returns the first element, in list order, that passes the test. *)
Lemma find_first {A} (f : A -> bool) (l : list A) (x : A) :
  find f l = Some x ->
  exists before after,
    l = before ++ x :: after /\ Forall (fun y => f y = false) before /\ f x = true.
Proof.
  induction l as [|a l IH]; simpl; [discriminate|].
  destruct (f a) eqn:Hfa.
  - intros [= ->]. exists [], l. auto.
  - intros H. destruct (IH H) as (before & after & -> & Hb & Hx).
    exists (a :: before), after. auto.
Qed.

Lemma find_exists {A} (f : A -> bool) (l : list A) :
  (exists x, In x l /\ f x = true) -> exists y, find f l = Some y.
Proof.
  intros (x & Hin & Hx). destruct (find f l) as [y|] eqn:E; [eauto|].
  rewrite (find_none f l E x Hin) in Hx. discriminate.
Qed.

Lemma startOfDay_jan1_0800 : startOfDay (dateTimeLocal 2024 1 1 8 0) = dateTimeLocal 2024 1 1 0 0.
Proof. reflexivity. Qed.

Lemma availability_status_cases (routes : list Route.t) (driver : Driver.t)
    (day : Date) (timeSlot : TimeSlot.t) :
  Driver.status driver <> on_leave ->
  DriverAvailability.status (getDriverAvailability routes driver day timeSlot) =
  if existsb (routeCoversSlot driver day timeSlot) routes then assigned else available.
Proof.
  intros Hs. unfold getDriverAvailability.
  apply DriverStatus_eqb_neq in Hs. rewrite Hs.
  destruct (find (routeCoversSlot driver day timeSlot) routes) as [r|] eqn:E; simpl.
  - apply find_some in E. destruct E as [Hin Hr].
    replace (existsb _ routes) with true; [reflexivity|].
    symmetry. apply existsb_exists. eauto.
  - replace (existsb _ routes) with false; [reflexivity|].
    symmetry. apply not_true_is_false. intros H.
    apply existsb_exists in H. destruct H as (x & Hin & Hx).
    rewrite (find_none _ _ E x Hin) in Hx. discriminate.
Qed.

(** C1 (amended). For a driver who is not on leave, and routes that do not
    end before they start, the classification of a (day, hour) cell is
    [assigned] exactly when some route is assigned to the driver, starts on
    the day, and either the slot start lies in the closed interval
    [routeStart, routeEnd] or the route start lies in the closed interval
    [slotStart, slotEnd]; otherwise it is [available]. With the single route
    08:00-10:00 of 2024-01-01, hour 9 is [assigned] and hour 14 is
    [available]. *)
Theorem availability_closed_overlap
    (routes : list Route.t) (driver : Driver.t) (day : Date) (timeSlot : TimeSlot.t) :
  Driver.status driver <> on_leave ->
  Forall (fun r => Route.startTime r <= Route.endTime r) routes ->
  let result := DriverAvailability.status (getDriverAvailability routes driver day timeSlot) in
  let covered :=
    exists r, In r routes /\ code_route_matches driver day (TimeSlot.hour timeSlot) r in
  (result = assigned <-> covered)
  /\ (result = available <-> ~ covered)
  /\ (forall route,
        routes = [route] ->
        Route.assignedDriverId route = Some (Driver.id driver) ->
        Route.startTime route = dateTimeLocal 2024 1 1 8 0 ->
        Route.endTime route = dateTimeLocal 2024 1 1 10 0 ->
        startOfDay day = dateTimeLocal 2024 1 1 0 0 ->
        (TimeSlot.hour timeSlot = 9 -> result = assigned)
        /\ (TimeSlot.hour timeSlot = 14 -> result = available)).
Proof.
  intros Hs Hwf result covered.
  assert (Hex : existsb (routeCoversSlot driver day timeSlot) routes = true <-> covered).
  { rewrite existsb_exists. unfold covered. rewrite Forall_forall in Hwf.
    split; intros (r & Hin & Hr); exists r; split; auto;
      apply (routeCoversSlot_closed driver day timeSlot r (Hwf r Hin)); assumption. }
  assert (Hres : result = if existsb (routeCoversSlot driver day timeSlot) routes
                          then assigned else available)
    by (apply availability_status_cases; assumption).
  assert (Hassigned : result = assigned <-> covered).
  { rewrite Hres, <- Hex.
    destruct (existsb _ routes); split; congruence. }
  assert (Havailable : result = available <-> ~ covered).
  { rewrite Hres, <- Hex.
    destruct (existsb _ routes); split; congruence. }
  split; [exact Hassigned|]. split; [exact Havailable|].
  intros route -> Hid Hstart Hend Hday. split; intros Hh.
  - apply Hassigned. exists route. split; [left; reflexivity|].
    unfold code_route_matches, code_overlap, setHours.
    rewrite Hid, Hstart, Hend, Hday, Hh, startOfDay_jan1_0800.
    repeat split. left. vm_compute. split; discriminate.
  - apply Havailable. intros (r & [<-|[]] & _ & _ & Hov).
    unfold code_overlap, setHours in Hov.
    rewrite Hstart, Hend, Hday, Hh in Hov.
    vm_compute in Hov. destruct Hov as [[_ H]|[H _]]; apply H; reflexivity.
Qed.

(** The single route 08:00-10:00 of 2024-01-01 for Jane, who is available:
    hour 9 is [assigned], hour 14 is [available]. *)
Lemma availability_closed_overlap_witness :
  DriverAvailability.status
    (getDriverAvailability [route_0800_1000] jane jan1 (slotAt 9)) = assigned
  /\ DriverAvailability.status
       (getDriverAvailability [route_0800_1000] jane jan1 (slotAt 14)) = available.
Proof.
  assert (Hs : Driver.status jane <> on_leave) by discriminate.
  assert (Hwf : Forall (fun r => Route.startTime r <= Route.endTime r) [route_0800_1000]).
  { constructor; [vm_compute; discriminate | constructor]. }
  split.
  - apply (proj1 (proj2 (proj2
      (availability_closed_overlap [route_0800_1000] jane jan1 (slotAt 9) Hs Hwf))
      route_0800_1000 eq_refl eq_refl eq_refl eq_refl eq_refl)).
    reflexivity.
  - apply (proj2 (proj2 (proj2
      (availability_closed_overlap [route_0800_1000] jane jan1 (slotAt 14) Hs Hwf))
      route_0800_1000 eq_refl eq_refl eq_refl eq_refl eq_refl)).
    reflexivity.
Defined.

(** C1 as the specification words it fails on a route that starts exactly
    when the slot ends: with the route 10:00-12:00 the code classifies hour 9
    as [assigned], although 10:00 is outside the half-open [09:00, 10:00)
    and 09:00 is outside [10:00, 12:00]. *)
Lemma availability_half_open_counterexample :
  Driver.status jane <> on_leave
  /\ DriverAvailability.status
       (getDriverAvailability [route_1000_1200] jane jan1 (slotAt 9)) = assigned
  /\ ~ (exists r, In r [route_1000_1200] /\ spec_route_matches jane jan1 9 r).
Proof.
  split; [discriminate|]. split; [reflexivity|].
  intros (r & [<-|[]] & _ & _ & Hov).
  vm_compute in Hov. destruct Hov as [[H _]|[_ H]]; [apply H; reflexivity | discriminate].
Qed.

(** C2. A driver whose status is [on_leave] is classified [on_leave] in every
    cell, whatever the routes are; no route is attached. *)
Theorem availability_on_leave
    (routes : list Route.t) (driver : Driver.t) (day : Date) (timeSlot : TimeSlot.t) :
  Driver.status driver = on_leave ->
  getDriverAvailability routes driver day timeSlot
  = DriverAvailability.mk driver on_leave None.
Proof.
  intros Hs. unfold getDriverAvailability. rewrite Hs. reflexivity.
Qed.

Lemma availability_on_leave_witness :
  Driver.status janeOnLeave = on_leave
  /\ getDriverAvailability [route_0800_1000] janeOnLeave jan1 (slotAt 9)
     = DriverAvailability.mk janeOnLeave on_leave None.
Proof.
  split; [reflexivity|].
  apply (availability_on_leave [route_0800_1000] janeOnLeave jan1 (slotAt 9)).
  reflexivity.
Defined.

(** C10. For a driver who is not on leave, as soon as at least one route
    passes the test for a cell, however many do, the classification is
    [assigned] and the attached route is the first one in the order of the
    collection that passes it. *)
Theorem availability_first_match
    (routes : list Route.t) (driver : Driver.t) (day : Date) (timeSlot : TimeSlot.t) :
  Driver.status driver <> on_leave ->
  (exists r, In r routes /\ routeCoversSlot driver day timeSlot r = true) ->
  exists before route after,
    routes = before ++ route :: after
    /\ Forall (fun r => routeCoversSlot driver day timeSlot r = false) before
    /\ routeCoversSlot driver day timeSlot route = true
    /\ getDriverAvailability routes driver day timeSlot
       = DriverAvailability.mk driver assigned (Some route).
Proof.
  intros Hs Hex. apply find_exists in Hex. destruct Hex as [route Hfind].
  destruct (find_first _ _ _ Hfind) as (before & after & Hsplit & Hbefore & Hroute).
  exists before, route, after. repeat split; try assumption.
  unfold getDriverAvailability.
  apply DriverStatus_eqb_neq in Hs. rewrite Hs, Hfind. reflexivity.
Qed.

(** Two of Jane's three routes cover hour 8 of 2024-01-01. *)
Lemma availability_first_match_witness :
  Driver.status jane <> on_leave
  /\ (exists r, In r [route_1000_1200; route_0800_1000; route_0830_0930]
                /\ routeCoversSlot jane jan1 (slotAt 8) r = true)
  /\ exists before route after,
       [route_1000_1200; route_0800_1000; route_0830_0930] = before ++ route :: after
       /\ Forall (fun r => routeCoversSlot jane jan1 (slotAt 8) r = false) before
       /\ routeCoversSlot jane jan1 (slotAt 8) route = true
       /\ getDriverAvailability [route_1000_1200; route_0800_1000; route_0830_0930]
                                jane jan1 (slotAt 8)
          = DriverAvailability.mk jane assigned (Some route).
Proof.
  assert (Hs : Driver.status jane <> on_leave) by discriminate.
  assert (Hex : exists r, In r [route_1000_1200; route_0800_1000; route_0830_0930]
                          /\ routeCoversSlot jane jan1 (slotAt 8) r = true).
  { exists route_0830_0930. split; [simpl; auto | reflexivity]. }
  split; [exact Hs|]. split; [exact Hex|].
  exact (availability_first_match _ jane jan1 (slotAt 8) Hs Hex).
Defined.

(** The route reported there is the one stored first among the two. *)
Example availability_first_match_sample :
  getDriverAvailability [route_1000_1200; route_0800_1000; route_0830_0930] jane jan1 (slotAt 8)
  = DriverAvailability.mk jane assigned (Some route_0800_1000)
  /\ getDriverAvailability [route_1000_1200; route_0830_0930; route_0800_1000] jane jan1 (slotAt 8)
     = DriverAvailability.mk jane assigned (Some route_0830_0930).
Proof. split; reflexivity. Qed.

Example daysFromCivil_2024 : daysFromCivil 2024 1 1 = 19723.
Proof. reflexivity. Qed.

Example timeSlots_hours :
  map TimeSlot.hour timeSlots = [6; 7; 8; 9; 10; 11; 12; 13; 14; 15; 16; 17; 18; 19; 20; 21; 22].
Proof. reflexivity. Qed.

Example timeSlots_labels_sample :
  map TimeSlot.label (firstn 2 timeSlots) = ["6 AM"; "7 AM"]
  /\ map TimeSlot.label (skipn 6 (firstn 8 timeSlots)) = ["12 PM"; "1 PM"]
  /\ map TimeSlot.label (skipn 16 timeSlots) = ["10 PM"].
Proof. repeat split. Qed.

(** ** Properties of the dashboard search and filters *)

Lemma startsWith_prefix (s search : string) :
  startsWith s search = true <-> exists post, s = (search ++ post)%string.
Proof.
  revert s. induction search as [|c search IH]; intros s; simpl.
  - split; [intros _; exists s; reflexivity | destruct s; reflexivity].
  - destruct s as [|d s].
    + split; [discriminate | intros [post H]; discriminate].
    + simpl. rewrite andb_true_iff, Ascii.eqb_eq, IH. split.
      * intros [-> [post ->]]. exists post. reflexivity.
      * intros [post [= -> ->]]. split; [reflexivity | exists post; reflexivity].
Qed.

Lemma includes_unfold (s search : string) :
  includes s search
  = startsWith s search
    || match s with
       | EmptyString => false
       | String _ s' => includes s' search
       end.
Proof.
  destruct s as [|d s]; simpl.
  - destruct (startsWith "" search); reflexivity.
  - destruct (startsWith (String d s) search); reflexivity.
Qed.

(** [includes] decides occurrence as a substring. *)
Lemma includes_occurs (s search : string) :
  includes s search = true <-> occurs search s.
Proof.
  unfold occurs. induction s as [|d s IH];
    rewrite includes_unfold, orb_true_iff, startsWith_prefix.
  - split.
    + intros [[post E]|E]; [exists "", post; exact E | discriminate].
    + intros (pre & post & H). left.
      destruct pre; [exists post; exact H | discriminate].
  - rewrite IH. split.
    + intros [[post E]|(pre & post & ->)].
      * exists "", post. exact E.
      * exists (String d pre), post. reflexivity.
    + intros (pre & post & H). destruct pre as [|c pre].
      * left. exists post. exact H.
      * right. injection H as _ ->. eauto.
Qed.

Lemma includes_empty (s : string) : includes s "" = true.
Proof. destruct s; reflexivity. Qed.

Lemma toLowerCase_append (a b : string) :
  toLowerCase (a ++ b) = (toLowerCase a ++ toLowerCase b)%string.
Proof. induction a as [|c a IH]; simpl; [reflexivity | rewrite IH; reflexivity]. Qed.

(** A splitting of the lowered string comes from a splitting of the string. *)
Lemma toLowerCase_split (s x y : string) :
  toLowerCase s = (x ++ y)%string ->
  exists a b, s = (a ++ b)%string /\ toLowerCase a = x /\ toLowerCase b = y.
Proof.
  revert s. induction x as [|c x IH]; intros s H.
  - exists "", s. auto.
  - destruct s as [|d s]; [discriminate|]. simpl in H. injection H as Hc Hs.
    destruct (IH s Hs) as (a & b & -> & Ha & Hb).
    exists (String d a), b. simpl. rewrite Hc, Ha. auto.
Qed.

(** Occurrence up to letter case is occurrence after lowering both sides. *)
Lemma occurs_ci_lower (query s : string) :
  occurs_ci query s <-> occurs (toLowerCase query) (toLowerCase s).
Proof.
  unfold occurs_ci, occurs. split.
  - intros (pre & mid & post & -> & Hmid).
    exists (toLowerCase pre), (toLowerCase post).
    rewrite !toLowerCase_append, Hmid. reflexivity.
  - intros (x & z & H).
    destruct (toLowerCase_split _ _ _ H) as (pre & rest & -> & Hpre & Hrest).
    destruct (toLowerCase_split _ _ _ Hrest) as (mid & post & -> & Hmid & Hpost).
    exists pre, mid, post. auto.
Qed.

Lemma includes_lower_occurs_ci (query s : string) :
  includes (toLowerCase s) (toLowerCase query) = true <-> occurs_ci query s.
Proof. rewrite includes_occurs, occurs_ci_lower. reflexivity. Qed.

Lemma occurs_empty (s : string) : occurs "" s.
Proof. exists "", s. reflexivity. Qed.

Lemma occurs_ci_empty (s : string) : occurs_ci "" s.
Proof. exists "", "", s. auto. Qed.

Lemma nonEmpty_false (s : string) : nonEmpty s = false -> s = "".
Proof.
  unfold nonEmpty. intros H. apply negb_false_iff in H.
  apply String.eqb_eq in H. exact H.
Qed.

Lemma driverMatchesSearch_spec (driverSearch : string) (driver : Driver.t) :
  driverMatchesSearch driverSearch driver = true
  <-> occurs_ci driverSearch (Driver.name driver)
      \/ occurs_ci driverSearch (Driver.licenseId driver)
      \/ occurs driverSearch (Driver.phone driver).
Proof.
  unfold driverMatchesSearch.
  rewrite !orb_true_iff, !includes_lower_occurs_ci, includes_occurs. tauto.
Qed.

Lemma searchDrivers_is_instance (driverSearch : string) (drivers : list Driver.t) :
  searchDrivers driverSearch drivers = searchDriversWith toLowerCase driverSearch drivers.
Proof. reflexivity. Qed.

(** Membership in the result of the search, for any lowering function. *)
Lemma searchDriversWith_In (lower : string -> string)
    (driverSearch : string) (drivers : list Driver.t) (driver : Driver.t) :
  In driver (searchDriversWith lower driverSearch drivers)
  <-> In driver drivers
      /\ (occurs (lower driverSearch) (lower (Driver.name driver))
          \/ occurs (lower driverSearch) (lower (Driver.licenseId driver))
          \/ occurs driverSearch (Driver.phone driver)).
Proof.
  unfold searchDriversWith. destruct (nonEmpty driverSearch) eqn:E.
  - rewrite filter_In. unfold driverMatchesSearchWith.
    rewrite !orb_true_iff, !includes_occurs. tauto.
  - apply nonEmpty_false in E. subst driverSearch.
    split; [|tauto]. intros H. split; [exact H|]. right. right. apply occurs_empty.
Qed.



(** The scenario of the specification: a query that differs in case from a
    part of the licenseId, and occurs in no other field, finds the driver. *)
Example searchDrivers_licenseId_case :
  searchDrivers "lic12" [jane; vanity] = [jane]
  /\ searchDrivers "dl-77a" [jane; vanity] = [vanity]
  /\ searchDrivers "JANE" [jane; vanity] = [jane]
  /\ searchDrivers "555" [jane; vanity] = [jane]
  /\ searchDrivers "" [jane; vanity] = [jane; vanity].
Proof. repeat split. Qed.


Lemma toLowerAscii_letter (c : ascii) :
  isLetter (toLowerAscii c) = false -> toLowerAscii c = c.
Proof. destruct c as [[] [] [] [] [] [] [] []]; vm_compute; congruence. Qed.

Lemma toLowerAscii_not_letter (c : ascii) :
  isLetter c = false -> toLowerAscii c = c.
Proof. destruct c as [[] [] [] [] [] [] [] []]; vm_compute; congruence. Qed.

Lemma toLowerCase_noLetters (s : string) :
  noLetters s = true -> toLowerCase s = s.
Proof.
  induction s as [|c s IH]; simpl; [reflexivity|].
  rewrite andb_true_iff, negb_true_iff. intros [Hc Hs].
  rewrite (toLowerAscii_not_letter c Hc), (IH Hs). reflexivity.
Qed.

Lemma toLowerCase_noLetters_inv (s : string) :
  noLetters (toLowerCase s) = true -> toLowerCase s = s.
Proof.
  induction s as [|c s IH]; simpl; [reflexivity|].
  rewrite andb_true_iff, negb_true_iff. intros [Hc Hs].
  rewrite (toLowerAscii_letter c Hc), (IH Hs). reflexivity.
Qed.

Lemma noLetters_append (a b : string) :
  noLetters (a ++ b) = noLetters a && noLetters b.
Proof.
  induction a as [|c a IH]; simpl; [reflexivity|].
  rewrite IH, andb_assoc. reflexivity.
Qed.

(** On a phone number without letters the literal test of the code and the
    test up to letter case agree. *)
Lemma occurs_ci_noLetters (query phone : string) :
  noLetters phone = true ->
  (occurs_ci query phone <-> occurs query phone).
Proof.
  intros Hph. split.
  - intros (pre & mid & post & -> & Hmid).
    rewrite !noLetters_append, !andb_true_iff in Hph.
    destruct Hph as (_ & Hm & _).
    pose proof (toLowerCase_noLetters mid Hm) as Hlow.
    assert (Hq : toLowerCase query = query).
    { apply toLowerCase_noLetters_inv. rewrite <- Hmid, Hlow. exact Hm. }
    exists pre, post. congruence.
  - intros (pre & post & ->). exists pre, query, post. auto.
Qed.

(** Hence, for drivers whose phone has no letters, the search is the
    case-insensitive match over the three fields. *)
Lemma searchDriversWith_ascii
    (lower : string -> string)
    (driverSearch : string) (drivers : list Driver.t) (driver : Driver.t) :
  (forall s, asciiOnly s = true -> lower s = toLowerCase s) ->
  asciiOnly driverSearch = true ->
  asciiOnly (Driver.name driver) = true ->
  asciiOnly (Driver.licenseId driver) = true ->
  (In driver (searchDriversWith lower driverSearch drivers)
   <-> In driver drivers
       /\ (occurs_ci driverSearch (Driver.name driver)
           \/ occurs_ci driverSearch (Driver.licenseId driver)
           \/ occurs driverSearch (Driver.phone driver))).
Proof.
  intros Hascii Hq Hname Hlic.
  rewrite searchDriversWith_In.
  rewrite (Hascii _ Hq), (Hascii _ Hname), (Hascii _ Hlic).
  rewrite <- !occurs_ci_lower. reflexivity.
Qed.

Lemma filter_comm {A} (f g : A -> bool) (l : list A) :
  filter f (filter g l) = filter g (filter f l).
Proof.
  induction l as [|a l IH]; simpl; [reflexivity|].
  destruct (f a) eqn:Hf, (g a) eqn:Hg; simpl; rewrite ?Hf, ?Hg, IH; reflexivity.
Qed.

(** C9. On any snapshot of drivers and of routes, searching and then
    filtering by status, which is what the dashboard does, gives the same
    list as filtering by status and then searching; the result holds the
    elements of the snapshot that pass both. *)
Theorem search_and_status_filter_commute :
  (forall (drivers : list Driver.t) (driverFilter : DriverFilter) (driverSearch : string),
      filteredDrivers drivers driverFilter driverSearch
      = searchDrivers driverSearch (statusFilterDrivers driverFilter drivers)
      /\ forall d, In d (filteredDrivers drivers driverFilter driverSearch)
                   <-> In d (searchDrivers driverSearch drivers)
                       /\ In d (statusFilterDrivers driverFilter drivers))
  /\ (forall (routes : list Route.t) (routeFilter : RouteFilter) (routeSearch : string),
        filteredRoutes routes routeFilter routeSearch
        = searchRoutes routeSearch (statusFilterRoutes routeFilter routes)
        /\ forall r, In r (filteredRoutes routes routeFilter routeSearch)
                     <-> In r (searchRoutes routeSearch routes)
                         /\ In r (statusFilterRoutes routeFilter routes)).
Proof.
  split.
  - intros drivers driverFilter driverSearch.
    unfold filteredDrivers, searchDrivers, statusFilterDrivers. split.
    + destruct (nonEmpty driverSearch), driverFilter;
        try reflexivity; apply filter_comm.
    + intros d.
      destruct (nonEmpty driverSearch), driverFilter;
        rewrite ?filter_In; tauto.
  - intros routes routeFilter routeSearch.
    unfold filteredRoutes, searchRoutes, statusFilterRoutes. split.
    + destruct (nonEmpty routeSearch), routeFilter;
        try reflexivity; apply filter_comm.
    + intros r.
      destruct (nonEmpty routeSearch), routeFilter;
        rewrite ?filter_In; tauto.
Qed.

Example filteredDrivers_sample :
  filteredDrivers [jane; vanity; janeOnLeave] DF_available "d" = [jane]
  /\ searchDrivers "d" (statusFilterDrivers DF_available [jane; vanity; janeOnLeave]) = [jane]
  /\ filteredRoutes [route_0800_1000; route_1000_1200] RF_unassigned "rt" = []
  /\ filteredRoutes [route_0800_1000; route_1000_1200] RF_assigned "RT002" = [route_1000_1200].
Proof. repeat split. Qed.

(** ** Properties of the stores *)

Lemma World_eta (w : World) :
  mkWorld (drivers w) (routes w) (clockReads w) (uuidCalls w) (console w) = w.
Proof. destruct w; reflexivity. Qed.

Lemma find_absent {A} (f : A -> bool) (l : list A) :
  (forall x, In x l -> f x = false) -> find f l = None.
Proof.
  induction l as [|a l IH]; simpl; intros H; [reflexivity|].
  rewrite (H a (or_introl eq_refl)). apply IH. intros x Hx. apply H. right. exact Hx.
Qed.

Lemma filter_all {A} (f : A -> bool) (l : list A) :
  (forall x, In x l -> f x = true) -> filter f l = l.
Proof.
  induction l as [|a l IH]; simpl; intros H; [reflexivity|].
  rewrite (H a (or_introl eq_refl)). f_equal. apply IH. intros x Hx. apply H. right. exact Hx.
Qed.

(** A callback that leaves every element of the array alone, without any
    effect, makes [map] the identity. *)
Lemma mapM_untouched {A} (f : A -> Store A) (l : list A) (w : World) :
  (forall x, In x l -> forall w', f x w' = (x, w')) -> mapM f l w = (l, w).
Proof.
  induction l as [|a l IH]; simpl; intros H; [reflexivity|].
  unfold bind. rewrite (H a (or_introl eq_refl)).
  rewrite IH by (intros x Hx; apply H; right; exact Hx). reflexivity.
Qed.

Lemma sampleWorld_reached :
  exec sampleActions initialWorld = sampleWorld
  /\ exec (sampleActions ;; deleteDriver "0-uuid") initialWorld = danglingWorld.
Proof. split; vm_compute; reflexivity. Qed.

Lemma sampleWorld_value :
  map Driver.id (drivers sampleWorld) = ["0-uuid"; "1-uuid"]
  /\ map Driver.status (drivers sampleWorld) = [assigned; available]
  /\ map Route.assignedDriverId (routes sampleWorld) = [Some "0-uuid"]
  /\ console sampleWorld
     = ["Driver added: Jane Doe (0-uuid)"; "Driver added: Sam Roe (1-uuid)";
        "Route added: RT001 (2-uuid)"; "Driver updated: Jane Doe (0-uuid)"].
Proof. vm_compute. repeat split. Qed.

Lemma updateDriver_missing (env : Env) (w : World) (id : string) (updates : DriverUpdates.t) :
  (forall d, In d (drivers w) -> Driver.id d <> id) ->
  updateDriver env id updates w = (tt, w).
Proof.
  intros Hmiss.
  assert (Hneq : forall d, In d (drivers w) -> (Driver.id d =? id)%string = false)
    by (intros d Hd; apply String.eqb_neq; auto).
  unfold updateDriver, bind, get.
  rewrite mapM_untouched by (intros d Hd w'; rewrite (Hneq d Hd); reflexivity).
  unfold setDrivers, getDriver, bind, get, ret. cbn [drivers].
  rewrite (find_absent _ _ Hneq). rewrite World_eta. reflexivity.
Qed.

Lemma deleteDriver_missing (w : World) (id : string) :
  (forall d, In d (drivers w) -> Driver.id d <> id) ->
  deleteDriver id w = (tt, w).
Proof.
  intros Hmiss.
  assert (Hneq : forall d, In d (drivers w) -> (Driver.id d =? id)%string = false)
    by (intros d Hd; apply String.eqb_neq; auto).
  unfold deleteDriver, getDriver, bind, get, ret, setDrivers.
  rewrite (find_absent _ _ Hneq).
  rewrite filter_all by (intros d Hd; rewrite (Hneq d Hd); reflexivity).
  rewrite World_eta. reflexivity.
Qed.

Lemma updateRoute_missing (env : Env) (w : World) (id : string) (updates : RouteUpdates.t) :
  (forall r, In r (routes w) -> Route.id r <> id) ->
  updateRoute env id updates w = (tt, w).
Proof.
  intros Hmiss.
  assert (Hneq : forall r, In r (routes w) -> (Route.id r =? id)%string = false)
    by (intros r Hr; apply String.eqb_neq; auto).
  unfold updateRoute, bind, get.
  rewrite mapM_untouched by (intros r Hr w'; rewrite (Hneq r Hr); reflexivity).
  unfold setRoutes, getRoute, bind, get, ret. cbn [routes].
  rewrite (find_absent _ _ Hneq). rewrite World_eta. reflexivity.
Qed.

Lemma deleteRoute_missing (w : World) (id : string) :
  (forall r, In r (routes w) -> Route.id r <> id) ->
  deleteRoute id w = (tt, w).
Proof.
  intros Hmiss.
  assert (Hneq : forall r, In r (routes w) -> (Route.id r =? id)%string = false)
    by (intros r Hr; apply String.eqb_neq; auto).
  unfold deleteRoute, getRoute, bind, get, ret, setRoutes.
  rewrite (find_absent _ _ Hneq).
  rewrite filter_all by (intros r Hr; rewrite (Hneq r Hr); reflexivity).
  rewrite World_eta. reflexivity.
Qed.

(** C7. When no driver (respectively no route) has the given id, updating or
    deleting by that id returns normally and leaves the whole world as it
    was: both collections, the clock, the id generator and the console. *)
Theorem update_delete_missing_id_noop
    (env : Env) (w : World) (id : string)
    (driverPatch : DriverUpdates.t) (routePatch : RouteUpdates.t) :
  ((forall d, In d (drivers w) -> Driver.id d <> id) ->
   updateDriver env id driverPatch w = (tt, w) /\ deleteDriver id w = (tt, w))
  /\ ((forall r, In r (routes w) -> Route.id r <> id) ->
      updateRoute env id routePatch w = (tt, w) /\ deleteRoute id w = (tt, w)).
Proof.
  split; intros Hmiss; split.
  - apply updateDriver_missing; assumption.
  - apply deleteDriver_missing; assumption.
  - apply updateRoute_missing; assumption.
  - apply deleteRoute_missing; assumption.
Qed.

Lemma update_delete_missing_id_noop_witness :
  (forall d, In d (drivers sampleWorld) -> Driver.id d <> "9-uuid")
  /\ (forall r, In r (routes sampleWorld) -> Route.id r <> "9-uuid")
  /\ updateDriver sampleEnv "9-uuid" onLeavePatch sampleWorld = (tt, sampleWorld)
  /\ deleteDriver "9-uuid" sampleWorld = (tt, sampleWorld)
  /\ updateRoute sampleEnv "9-uuid" (reassignPatch None) sampleWorld = (tt, sampleWorld)
  /\ deleteRoute "9-uuid" sampleWorld = (tt, sampleWorld).
Proof.
  assert (Hd : forall d, In d (drivers sampleWorld) -> Driver.id d <> "9-uuid").
  { intros d [<-|[<-|[]]]; discriminate. }
  assert (Hr : forall r, In r (routes sampleWorld) -> Route.id r <> "9-uuid").
  { intros r [<-|[]]; discriminate. }
  pose proof (update_delete_missing_id_noop sampleEnv sampleWorld "9-uuid"
                onLeavePatch (reassignPatch None)) as [HD HR].
  destruct (HD Hd) as [H1 H2]. destruct (HR Hr) as [H3 H4].
  exact (conj Hd (conj Hr (conj H1 (conj H2 (conj H3 H4))))).
Defined.

(** What [deleteDriver] does to the world: the drivers with the id are
    filtered out, in place; one line is logged when there was one. *)
Lemma deleteDriver_world (w : World) (id : string) :
  let w' := exec (deleteDriver id) w in
  drivers w' = filter (fun driver => negb (Driver.id driver =? id)%string) (drivers w)
  /\ routes w' = routes w
  /\ clockReads w' = clockReads w
  /\ uuidCalls w' = uuidCalls w.
Proof.
  unfold exec, deleteDriver, getDriver, bind, get, ret, setDrivers, console_log.
  destruct (find _ (drivers w)); simpl; auto.
Qed.

Lemma deleteDriver_no_such_id (w : World) (id : string) (d : Driver.t) :
  In d (drivers (exec (deleteDriver id) w)) -> Driver.id d <> id.
Proof.
  destruct (deleteDriver_world w id) as (-> & _).
  rewrite filter_In, negb_true_iff, String.eqb_neq. tauto.
Qed.

(** C8. After [deleteDriver(id)], [getDriver(id)] finds nothing, no driver
    with that id is returned by [getDriversByStatus] for any status, and a
    second [deleteDriver(id)] changes nothing at all. *)
Theorem deleteDriver_removes_and_idempotent (w : World) (id : string) :
  let w' := exec (deleteDriver id) w in
  eval (getDriver id) w' = None
  /\ (forall status d, Driver.id d = id -> ~ In d (eval (getDriversByStatus status) w'))
  /\ deleteDriver id w' = (tt, w')
  /\ exec (deleteDriver id ;; deleteDriver id) w = exec (deleteDriver id) w.
Proof.
  intros w'.
  assert (Hgone : forall d, In d (drivers w') -> Driver.id d <> id)
    by (intros d; apply deleteDriver_no_such_id).
  assert (Hagain : deleteDriver id w' = (tt, w'))
    by (apply deleteDriver_missing; exact Hgone).
  repeat split.
  - unfold eval, getDriver, bind, get, ret. simpl.
    apply find_absent. intros d Hd. apply String.eqb_neq. auto.
  - intros status d Hid Hin.
    unfold eval, getDriversByStatus, bind, get, ret in Hin. simpl in Hin.
    apply filter_In in Hin. destruct Hin as [Hin _].
    exact (Hgone d Hin Hid).
  - exact Hagain.
  - unfold exec at 1. unfold bind at 1.
    fold w'. destruct (deleteDriver id w) as [u w1] eqn:E.
    assert (w1 = w') by (unfold w', exec; rewrite E; reflexivity). subst w1.
    rewrite Hagain. reflexivity.
Qed.

Example deleteDriver_sample :
  map Driver.id (drivers danglingWorld) = ["1-uuid"]
  /\ map Route.assignedDriverId (routes danglingWorld) = [Some "0-uuid"]
  /\ eval (getDriver "0-uuid") danglingWorld = None
  /\ skipn 4 (console danglingWorld) = ["Driver deleted: Jane Doe (0-uuid)"]
  /\ exec (deleteDriver "0-uuid") danglingWorld = danglingWorld.
Proof. vm_compute. repeat split. Qed.

Section ClockedUpdates.

Context (env : Env).

Lemma advance_0 (w : World) : advance 0 w = w.
Proof. apply World_eta. Qed.

Lemma advance_advance (k j : nat) (w : World) :
  advance k (advance j w) = advance (k + j) w.
Proof. unfold advance. simpl. f_equal. lia. Qed.

Lemma mapM_cons {A B} (f : A -> Store B) (a : A) (l : list A) (w : World) :
  mapM f (a :: l) w
  = let (y, w1) := f a w in let (ys, w2) := mapM f l w1 in (y :: ys, w2).
Proof.
  simpl. unfold bind, ret. destruct (f a w) as [y w1].
  destruct (mapM f l w1); reflexivity.
Qed.

Lemma patch_step {A} (patch : A -> Date -> A) (a : A) (w : World) :
  (t <- newDate env ;; ret (patch a t)) w
  = (patch a (now env (clockReads w)), advance 1 w).
Proof. reflexivity. Qed.

(** [map] with a callback that patches the elements passing [test], with a
    fresh reading of the clock for each, and returns the others as they
    are: the clock advances by the number of patched elements, nothing else
    in the world changes, and the array is patched in place. *)
Lemma mapM_patch {A} (test : A -> bool) (patch : A -> Date -> A) (l : list A) (w : World) :
  exists ys k,
    mapM (fun x => if test x then t <- newDate env ;; ret (patch x t) else ret x) l w
    = (ys, advance k w)
    /\ Forall2 (fun x y =>
                  if test x
                  then exists n, (clockReads w <= n < k + clockReads w)%nat
                                 /\ y = patch x (now env n)
                  else y = x) l ys.
Proof.
  revert w. induction l as [|a l IH]; intros w.
  - exists [], 0%nat. simpl. unfold ret. rewrite advance_0. auto.
  - rewrite mapM_cons. cbv beta. destruct (test a) eqn:Ha.
    + rewrite patch_step.
      destruct (IH (advance 1 w)) as (ys & k & Hrun & Hrel).
      rewrite Hrun, advance_advance.
      exists (patch a (now env (clockReads w)) :: ys), (k + 1)%nat.
      split; [reflexivity|].
      constructor.
      * rewrite Ha. exists (clockReads w). split; [lia | reflexivity].
      * eapply Forall2_impl; [|exact Hrel].
        intros x y. simpl. destruct (test x); [|auto].
        intros (n & Hn & ->). exists n. split; [lia | reflexivity].
    + unfold ret at 1.
      destruct (IH w) as (ys & k & Hrun & Hrel).
      rewrite Hrun. exists (a :: ys), k. split; [reflexivity|].
      constructor; [rewrite Ha; reflexivity | exact Hrel].
Qed.

(** The run of [updateDriver]: the patched array is stored, and one line is
    logged when a driver with the id is found afterwards. *)
Lemma updateDriver_run (w : World) (id : string) (updates : DriverUpdates.t) :
  exists ds k log,
    updateDriver env id updates w
    = (tt, mkWorld ds (routes w) (k + clockReads w) (uuidCalls w) (console w ++ log))
    /\ Forall2 (fun d d' =>
                  if (Driver.id d =? id)%string
                  then exists n, (clockReads w <= n < k + clockReads w)%nat
                                 /\ d' = patchDriver d updates (now env n)
                  else d' = d) (drivers w) ds.
Proof.
  destruct (mapM_patch (fun d => (Driver.id d =? id)%string)
                       (fun d t => patchDriver d updates t) (drivers w) w)
    as (ds & k & Hrun & Hrel).
  exists ds, k.
  assert (Hstep : updateDriver env id updates w
                  = (setDrivers (fun _ => ds) ;;
                     driver <- getDriver id ;;
                     match driver with
                     | Some driver =>
                         console_log ("Driver updated: " ++ Driver.name driver
                                      ++ " (" ++ id ++ ")")%string
                     | None => ret tt
                     end) (advance k w)).
  { unfold updateDriver, bind at 1, get at 1, bind at 1. rewrite Hrun. reflexivity. }
  rewrite Hstep.
  unfold bind, setDrivers, getDriver, get, ret, console_log. simpl.
  destruct (find _ ds) as [d|].
  - eexists. split; [reflexivity | exact Hrel].
  - exists []. rewrite app_nil_r. split; [reflexivity | exact Hrel].
Qed.

(** What [updateDriver] does to the world. *)
Lemma updateDriver_world (w : World) (id : string) (updates : DriverUpdates.t) :
  let w' := exec (updateDriver env id updates) w in
  Forall2 (fun d d' =>
             if (Driver.id d =? id)%string
             then exists n, (clockReads w <= n < clockReads w')%nat
                            /\ d' = patchDriver d updates (now env n)
             else d' = d) (drivers w) (drivers w')
  /\ routes w' = routes w
  /\ (clockReads w <= clockReads w')%nat
  /\ uuidCalls w' = uuidCalls w.
Proof.
  destruct (updateDriver_run w id updates) as (ds & k & log & Hrun & Hrel).
  cbv zeta. unfold exec. rewrite Hrun. simpl.
  repeat split; [exact Hrel | lia].
Qed.

Lemma updateRoute_run (w : World) (id : string) (updates : RouteUpdates.t) :
  exists rs k log,
    updateRoute env id updates w
    = (tt, mkWorld (drivers w) rs (k + clockReads w) (uuidCalls w) (console w ++ log))
    /\ Forall2 (fun r r' =>
                  if (Route.id r =? id)%string
                  then exists n, (clockReads w <= n < k + clockReads w)%nat
                                 /\ r' = patchRoute r updates (now env n)
                  else r' = r) (routes w) rs.
Proof.
  destruct (mapM_patch (fun r => (Route.id r =? id)%string)
                       (fun r t => patchRoute r updates t) (routes w) w)
    as (rs & k & Hrun & Hrel).
  exists rs, k.
  assert (Hstep : updateRoute env id updates w
                  = (setRoutes (fun _ => rs) ;;
                     route <- getRoute id ;;
                     match route with
                     | Some route =>
                         console_log ("Route updated: " ++ Route.routeCode route
                                      ++ " (" ++ id ++ ")")%string
                     | None => ret tt
                     end) (advance k w)).
  { unfold updateRoute, bind at 1, get at 1, bind at 1. rewrite Hrun. reflexivity. }
  rewrite Hstep.
  unfold bind, setRoutes, getRoute, get, ret, console_log. simpl.
  destruct (find _ rs) as [r|].
  - eexists. split; [reflexivity | exact Hrel].
  - exists []. rewrite app_nil_r. split; [reflexivity | exact Hrel].
Qed.

(** What [updateRoute] does to the world. *)
Lemma updateRoute_world (w : World) (id : string) (updates : RouteUpdates.t) :
  let w' := exec (updateRoute env id updates) w in
  Forall2 (fun r r' =>
             if (Route.id r =? id)%string
             then exists n, (clockReads w <= n < clockReads w')%nat
                            /\ r' = patchRoute r updates (now env n)
             else r' = r) (routes w) (routes w')
  /\ drivers w' = drivers w
  /\ (clockReads w <= clockReads w')%nat
  /\ uuidCalls w' = uuidCalls w.
Proof.
  destruct (updateRoute_run w id updates) as (rs & k & log & Hrun & Hrel).
  cbv zeta. unfold exec. rewrite Hrun. simpl.
  repeat split; [exact Hrel | lia].
Qed.

(** What [addDriver] does to the world: one id is drawn, the clock is read
    twice, the new driver goes to the end of the collection. *)
Lemma addDriver_world (w : World) (input : DriverInput.t) :
  let newDriver :=
    Driver.mk (uuidv4 env (uuidCalls w))
              (DriverInput.name input) (DriverInput.phone input)
              (DriverInput.licenseId input) (DriverInput.status input)
              (now env (clockReads w)) (now env (S (clockReads w))) in
  let w' := exec (addDriver env input) w in
  drivers w' = drivers w ++ [newDriver]
  /\ routes w' = routes w
  /\ clockReads w' = S (S (clockReads w))
  /\ uuidCalls w' = S (uuidCalls w).
Proof. repeat split. Qed.

(** What [addRoute] does to the world. *)
Lemma addRoute_world (w : World) (input : RouteInput.t) :
  let newRoute :=
    Route.mk (uuidv4 env (uuidCalls w))
             (RouteInput.routeCode input) (RouteInput.origin input)
             (RouteInput.destination input) (RouteInput.startTime input)
             (RouteInput.endTime input) (RouteInput.assignedDriverId input)
             (now env (clockReads w)) (now env (S (clockReads w))) in
  let w' := exec (addRoute env input) w in
  routes w' = routes w ++ [newRoute]
  /\ drivers w' = drivers w
  /\ clockReads w' = S (S (clockReads w))
  /\ uuidCalls w' = S (uuidCalls w).
Proof. repeat split. Qed.

End ClockedUpdates.

(** C6. Under a clock that never goes back, and in a store whose drivers
    carry no timestamp later than the clock, [updateDriver(id, {status:
    'on_leave'})] maps the collection position by position: a driver with
    the id keeps its id, name, phone, licenseId and createdAt, gets the
    status [on_leave] and an updatedAt that is not smaller; every other
    driver is unchanged; length and order are preserved, and the routes are
    not touched. *)
Theorem updateDriver_on_leave_frame (env : Env) (w : World) (id : string) :
  monotoneClock env ->
  driversInPast env w ->
  let w' := exec (updateDriver env id (DriverUpdates.mk None None None (Some on_leave))) w in
  Forall2 (fun d d' => if (Driver.id d =? id)%string then putOnLeave d d' else d' = d)
          (drivers w) (drivers w')
  /\ routes w' = routes w.
Proof.
  intros Hmono Hpast w'.
  destruct (updateDriver_world env w id (DriverUpdates.mk None None None (Some on_leave)))
    as (Hrel & Hroutes & _ & _).
  fold w' in Hrel, Hroutes. split; [|exact Hroutes].
  unfold driversInPast in Hpast. rewrite Forall_forall in Hpast.
  clear Hroutes. induction Hrel as [|d d' l l' Hd Hrel IH]; constructor.
  - destruct (Driver.id d =? id)%string; [|exact Hd].
    destruct Hd as (n & Hn & ->). unfold putOnLeave, patchDriver. simpl.
    repeat split.
    apply Z.le_trans with (now env (clockReads w)).
    + apply Hpast. left. reflexivity.
    + apply Hmono. lia.
  - apply IH. intros x Hx. apply Hpast. right. exact Hx.
Qed.

Lemma sampleEnv_monotone : monotoneClock sampleEnv.
Proof.
  intros n m Hnm. unfold sampleEnv, now.
  generalize (dateTimeLocal 2024 1 1 7 0). unfold Date. intros base. lia.
Qed.

Lemma updateDriver_on_leave_frame_witness :
  monotoneClock sampleEnv
  /\ driversInPast sampleEnv sampleWorld
  /\ Forall2 (fun d d' => if (Driver.id d =? "1-uuid")%string then putOnLeave d d' else d' = d)
             (drivers sampleWorld)
             (drivers (exec (updateDriver sampleEnv "1-uuid"
                               (DriverUpdates.mk None None None (Some on_leave))) sampleWorld))
  /\ routes (exec (updateDriver sampleEnv "1-uuid"
                     (DriverUpdates.mk None None None (Some on_leave))) sampleWorld)
     = routes sampleWorld.
Proof.
  assert (Hpast : driversInPast sampleEnv sampleWorld).
  { unfold driversInPast. apply Forall_forall.
    intros d [<-|[<-|[]]]; apply Z.leb_le; vm_compute; reflexivity. }
  split; [exact sampleEnv_monotone|]. split; [exact Hpast|].
  exact (updateDriver_on_leave_frame sampleEnv sampleWorld "1-uuid"
           sampleEnv_monotone Hpast).
Defined.

Example updateDriver_on_leave_sample :
  let w' := exec (updateDriver sampleEnv "1-uuid" onLeavePatch) sampleWorld in
  map Driver.status (drivers w') = [assigned; on_leave]
  /\ map Driver.name (drivers w') = ["Jane Doe"; "Sam Roe"]
  /\ map Driver.updatedAt (drivers sampleWorld) = map (now sampleEnv) [6; 3]%nat
  /\ map Driver.updatedAt (drivers w') = map (now sampleEnv) [6; 7]%nat.
Proof. vm_compute. repeat split. Qed.

Lemma find_app {A} (f : A -> bool) (l1 l2 : list A) :
  find f (l1 ++ l2) = match find f l1 with Some x => Some x | None => find f l2 end.
Proof.
  induction l1 as [|a l1 IH]; simpl; [reflexivity|].
  destruct (f a); [reflexivity | exact IH].
Qed.

(** C5 (amended). When the id that the generator yields is not in use, then
    after [addDriver(input)], [getDriver] with that id returns a driver with
    the input's name, phone, licenseId and status, whose createdAt and
    updatedAt are the two successive readings of the clock that [addDriver]
    takes: createdAt is not later than updatedAt under a clock that never
    goes back, and they are equal exactly when the clock has not advanced
    between the two readings. *)
Theorem addDriver_then_getDriver (env : Env) (w : World) (input : DriverInput.t) :
  monotoneClock env ->
  (forall d, In d (drivers w) -> Driver.id d <> uuidv4 env (uuidCalls w)) ->
  let newId := uuidv4 env (uuidCalls w) in
  exists d,
    eval (getDriver newId) (exec (addDriver env input) w) = Some d
    /\ Driver.id d = newId
    /\ Driver.name d = DriverInput.name input
    /\ Driver.phone d = DriverInput.phone input
    /\ Driver.licenseId d = DriverInput.licenseId input
    /\ Driver.status d = DriverInput.status input
    /\ Driver.createdAt d = now env (clockReads w)
    /\ Driver.updatedAt d = now env (S (clockReads w))
    /\ Driver.createdAt d <= Driver.updatedAt d
    /\ (Driver.createdAt d = Driver.updatedAt d
        <-> now env (clockReads w) = now env (S (clockReads w))).
Proof.
  intros Hmono Hfresh newId.
  destruct (addDriver_world env w input) as (Hdrivers & _).
  cbv zeta in Hdrivers.
  eexists. split.
  - unfold eval, getDriver, bind, get, ret. cbn [fst].
    rewrite Hdrivers, find_app.
    rewrite find_absent by (intros d Hd; apply String.eqb_neq; auto).
    simpl. fold newId. rewrite String.eqb_refl. reflexivity.
  - simpl. repeat split; try (intros H; exact H).
    apply Hmono. lia.
Qed.

Lemma addDriver_then_getDriver_witness :
  monotoneClock sampleEnv
  /\ (forall d, In d (drivers sampleWorld) -> Driver.id d <> uuidv4 sampleEnv (uuidCalls sampleWorld))
  /\ exists d,
      eval (getDriver (uuidv4 sampleEnv (uuidCalls sampleWorld)))
           (exec (addDriver sampleEnv janeInput) sampleWorld) = Some d
      /\ Driver.id d = uuidv4 sampleEnv (uuidCalls sampleWorld)
      /\ Driver.name d = DriverInput.name janeInput
      /\ Driver.phone d = DriverInput.phone janeInput
      /\ Driver.licenseId d = DriverInput.licenseId janeInput
      /\ Driver.status d = DriverInput.status janeInput
      /\ Driver.createdAt d = now sampleEnv (clockReads sampleWorld)
      /\ Driver.updatedAt d = now sampleEnv (S (clockReads sampleWorld))
      /\ Driver.createdAt d <= Driver.updatedAt d
      /\ (Driver.createdAt d = Driver.updatedAt d
          <-> now sampleEnv (clockReads sampleWorld) = now sampleEnv (S (clockReads sampleWorld))).
Proof.
  assert (Hfresh : forall d, In d (drivers sampleWorld) ->
                             Driver.id d <> uuidv4 sampleEnv (uuidCalls sampleWorld)).
  { intros d [<-|[<-|[]]]; vm_compute; discriminate. }
  split; [exact sampleEnv_monotone|]. split; [exact Hfresh|].
  exact (addDriver_then_getDriver sampleEnv sampleWorld janeInput sampleEnv_monotone Hfresh).
Defined.

(** C5 as the specification words it fails when the clock advances between
    the two [new Date()] of [addDriver]: with a clock that gains a
    millisecond at every reading, the driver just added has an updatedAt
    one millisecond after its createdAt. *)
Lemma addDriver_timestamps_counterexample :
  exists d,
    eval (getDriver (uuidv4 sampleEnv 0)) (exec (addDriver sampleEnv janeInput) initialWorld)
    = Some d
    /\ Driver.name d = "Jane Doe"
    /\ Driver.updatedAt d = Driver.createdAt d + 1
    /\ Driver.createdAt d <> Driver.updatedAt d.
Proof.
  eexists. split; [vm_compute; reflexivity|].
  vm_compute. repeat split. discriminate.
Qed.

(** ** Invariants of the reachable worlds *)

Lemma deleteRoute_world (w : World) (id : string) :
  let w' := exec (deleteRoute id) w in
  routes w' = filter (fun route => negb (Route.id route =? id)%string) (routes w)
  /\ drivers w' = drivers w
  /\ clockReads w' = clockReads w
  /\ uuidCalls w' = uuidCalls w.
Proof.
  unfold exec, deleteRoute, getRoute, bind, get, ret, setRoutes, console_log.
  destruct (find _ (routes w)); simpl; auto.
Qed.

Lemma Forall2_transport {A} (R : A -> A -> Prop) (P Q : A -> Prop) (l l' : list A) :
  Forall2 R l l' -> Forall P l -> (forall x y, P x -> R x y -> Q y) -> Forall Q l'.
Proof.
  intros Hrel. induction Hrel as [|x y l l' Hxy Hrel IH]; intros HP Hstep.
  - constructor.
  - inversion HP as [|? ? Hx Hl]; subst. constructor; eauto.
Qed.

Section Invariants.

Context (env : Env) (Hmono : monotoneClock env).

Local Notation inv := (storeInvariant env).

(** An action that leaves the drivers alone and only moves the clock and
    the generator forward keeps the invariants. *)
Lemma inv_frame (w w' : World) :
  drivers w' = drivers w ->
  (clockReads w <= clockReads w')%nat ->
  (uuidCalls w <= uuidCalls w')%nat ->
  inv w -> inv w'.
Proof.
  unfold storeInvariant, driversInPast, driverIdsIssued.
  intros -> Hc Hu [Hpast Hids]. split.
  - eapply Forall_impl; [|exact Hpast]. simpl. intros d Hd.
    apply Z.le_trans with (now env (clockReads w)); [exact Hd | apply Hmono; exact Hc].
  - eapply Forall_impl; [|exact Hids]. simpl. intros d (n & Hn & Hd).
    exists n. split; [lia | exact Hd].
Qed.

Lemma inv_addDriver (w : World) (input : DriverInput.t) :
  inv w -> inv (exec (addDriver env input) w).
Proof.
  intros [Hpast Hids].
  destruct (addDriver_world env w input) as (Hd & _ & Hc & Hu). cbv zeta in Hd.
  unfold storeInvariant, driversInPast, driverIdsIssued. rewrite Hd, Hc, Hu. split.
  - apply Forall_app. split.
    + eapply Forall_impl; [|exact Hpast]. simpl. intros d Hle.
      apply Z.le_trans with (now env (clockReads w)); [exact Hle | apply Hmono; lia].
    + constructor; [|constructor]. simpl. apply Hmono. lia.
  - apply Forall_app. split.
    + eapply Forall_impl; [|exact Hids]. simpl. intros d (n & Hn & Hid).
      exists n. split; [lia | exact Hid].
    + constructor; [|constructor]. exists (uuidCalls w). split; [lia | reflexivity].
Qed.

Lemma inv_updateDriver (w : World) (id : string) (updates : DriverUpdates.t) :
  inv w -> inv (exec (updateDriver env id updates) w).
Proof.
  intros [Hpast Hids].
  destruct (updateDriver_world env w id updates) as (Hrel & _ & Hc & Hu).
  cbv zeta in Hrel. unfold storeInvariant, driversInPast, driverIdsIssued. split.
  - eapply Forall2_transport; [exact Hrel | exact Hpast |].
    simpl. intros d d' Hle Hd. destruct (Driver.id d =? id)%string.
    + destruct Hd as (n & Hn & ->). simpl. apply Hmono. lia.
    + subst d'. apply Z.le_trans with (now env (clockReads w));
        [exact Hle | apply Hmono; exact Hc].
  - rewrite Hu. eapply Forall2_transport; [exact Hrel | exact Hids |].
    simpl. intros d d' Hd Hdd'. destruct (Driver.id d =? id)%string.
    + destruct Hdd' as (n & _ & ->). exact Hd.
    + subst d'. exact Hd.
Qed.

Lemma inv_deleteDriver (w : World) (id : string) :
  inv w -> inv (exec (deleteDriver id) w).
Proof.
  intros [Hpast Hids].
  destruct (deleteDriver_world w id) as (Hd & _ & Hc & Hu).
  unfold storeInvariant, driversInPast, driverIdsIssued. rewrite Hd, Hc, Hu.
  unfold driversInPast in Hpast. unfold driverIdsIssued in Hids.
  rewrite Forall_forall in Hpast. rewrite Forall_forall in Hids.
  split; apply Forall_forall; intros d Hin;
    apply filter_In in Hin; destruct Hin as [Hin _]; auto.
Qed.

(** Every reachable world has its drivers' timestamps in the past and its
    drivers' ids among those already issued. *)
Lemma reachable_inv (w : World) : reachable env w -> inv w.
Proof.
  induction 1 as [|w input _ IH|w id updates _ IH|w id _ IH
                  |w input _ IH|w id updates _ IH|w id _ IH].
  - split; constructor.
  - apply inv_addDriver; exact IH.
  - apply inv_updateDriver; exact IH.
  - apply inv_deleteDriver; exact IH.
  - destruct (addRoute_world env w input) as (_ & Hd & Hc & Hu).
    apply (inv_frame w); [exact Hd | lia | lia | exact IH].
  - destruct (updateRoute_world env w id updates) as (_ & Hd & Hc & Hu).
    apply (inv_frame w); [exact Hd | lia | lia | exact IH].
  - destruct (deleteRoute_world w id) as (_ & Hd & Hc & Hu).
    apply (inv_frame w); [exact Hd | lia | lia | exact IH].
Qed.

Lemma reachable_driversInPast (w : World) : reachable env w -> driversInPast env w.
Proof. intros H. exact (proj1 (reachable_inv w H)). Qed.

(** With a generator that never repeats itself, the next id is not in use
    in a reachable world. *)
Lemma reachable_next_id_fresh (w : World) :
  freshIds env -> reachable env w ->
  forall d, In d (drivers w) -> Driver.id d <> uuidv4 env (uuidCalls w).
Proof.
  intros [Hinj _] Hreach d Hd Heq.
  destruct (reachable_inv w Hreach) as [_ Hids].
  unfold driverIdsIssued in Hids. rewrite Forall_forall in Hids.
  destruct (Hids d Hd) as (n & Hn & Hid).
  rewrite Hid in Heq. apply Hinj in Heq. lia.
Qed.

End Invariants.

Lemma exec_seq {A B} (c : Store A) (k : Store B) (w : World) :
  exec (c ;; k) w = exec k (exec c w).
Proof. unfold exec, bind. destruct (c w); reflexivity. Qed.

Lemma sampleWorld_reachable : reachable sampleEnv sampleWorld.
Proof.
  replace sampleWorld with (exec sampleActions initialWorld)
    by (vm_compute; reflexivity).
  unfold sampleActions. rewrite !exec_seq.
  repeat constructor.
Qed.

Lemma danglingWorld_reachable : reachable sampleEnv danglingWorld.
Proof.
  replace danglingWorld with (exec (deleteDriver "0-uuid") sampleWorld)
    by (vm_compute; reflexivity).
  constructor. exact sampleWorld_reachable.
Qed.

(** ** Unassigned routes and routes by driver *)

(** [getUnassignedRoutes] returns the routes whose [assignedDriverId] is
    falsy: absent, or the empty string. *)
Lemma getUnassignedRoutes_falsy (w : World) (r : Route.t) :
  In r (eval getUnassignedRoutes w)
  <-> In r (routes w)
      /\ (Route.assignedDriverId r = None \/ Route.assignedDriverId r = Some "").
Proof.
  unfold eval, getUnassignedRoutes, bind, get, ret. simpl.
  rewrite filter_In, negb_true_iff. unfold truthy.
  destruct (Route.assignedDriverId r) as [a|].
  - rewrite negb_false_iff, String.eqb_eq. split.
    + intros [H ->]. auto.
    + intros [H [Hn|[= ->]]]; [discriminate | auto].
  - tauto.
Qed.

Lemma getRoutesByDriver_In (w : World) (driverId : string) (r : Route.t) :
  In r (eval (getRoutesByDriver driverId) w)
  <-> In r (routes w) /\ Route.assignedDriverId r = Some driverId.
Proof.
  unfold eval, getRoutesByDriver, bind, get, ret. simpl.
  rewrite filter_In, assignedTo_eq. reflexivity.
Qed.

(** C4 (amended). In a store where every assignment points to a driver of
    the collection and no driver has the empty id, [getUnassignedRoutes()]
    returns exactly the routes without [assignedDriverId], and these are
    exactly the routes that [getRoutesByDriver(d)] returns for no current
    driver id [d]. *)
Theorem unassigned_is_complement (w : World) (r : Route.t) :
  referencesResolve w ->
  (In r (eval getUnassignedRoutes w)
   <-> In r (routes w) /\ Route.assignedDriverId r = None)
  /\ (In r (eval getUnassignedRoutes w)
      <-> In r (routes w)
          /\ ~ exists d, In d (drivers w)
                         /\ In r (eval (getRoutesByDriver (Driver.id d)) w)).
Proof.
  intros [Hids Hrefs].
  rewrite getUnassignedRoutes_falsy.
  assert (Hne : In r (routes w) -> Route.assignedDriverId r <> Some "").
  { intros Hin Heq. destruct (Hrefs r "" Hin Heq) as (d & Hd & Hid).
    exact (Hids d Hd Hid). }
  split.
  - split.
    + intros [Hin [H|H]]; [auto | exfalso; exact (Hne Hin H)].
    + intros [Hin H]. auto.
  - split.
    + intros [Hin Hfalsy]. split; [exact Hin|].
      intros (d & Hd & Hr). apply getRoutesByDriver_In in Hr. destruct Hr as [_ Hr].
      destruct Hfalsy as [H|H]; [congruence | exact (Hne Hin H)].
    + intros [Hin Hnone]. split; [exact Hin|]. left.
      destruct (Route.assignedDriverId r) as [a|] eqn:Ha; [|reflexivity].
      exfalso. apply Hnone.
      destruct (Hrefs r a Hin Ha) as (d & Hd & Hid).
      exists d. split; [exact Hd|]. apply getRoutesByDriver_In. split; congruence.
Qed.

Lemma sampleWorld_referencesResolve : referencesResolve sampleWorld.
Proof.
  split.
  - intros d [<-|[<-|[]]]; discriminate.
  - intros r a [<-|[]] [= <-]. eexists. split; [left; reflexivity | reflexivity].
Qed.

Lemma unassigned_is_complement_witness :
  referencesResolve sampleWorld
  /\ forall r,
       (In r (eval getUnassignedRoutes sampleWorld)
        <-> In r (routes sampleWorld) /\ Route.assignedDriverId r = None)
       /\ (In r (eval getUnassignedRoutes sampleWorld)
           <-> In r (routes sampleWorld)
               /\ ~ exists d, In d (drivers sampleWorld)
                              /\ In r (eval (getRoutesByDriver (Driver.id d)) sampleWorld)).
Proof.
  split; [exact sampleWorld_referencesResolve|].
  intros r. exact (unassigned_is_complement sampleWorld r sampleWorld_referencesResolve).
Defined.

(** The scenario of the specification: once Jane is registered and a route
    is created for her, no route is unassigned and she has one route. *)
Example sampleWorld_routes :
  eval getUnassignedRoutes sampleWorld = []
  /\ List.length (eval (getRoutesByDriver "0-uuid") sampleWorld) = 1%nat
  /\ map Driver.name (eval (getDriversByStatus assigned) sampleWorld) = ["Jane Doe"].
Proof. vm_compute. repeat split. Qed.

(** C4 as the specification words it fails on a dangling assignment, which
    the stores allow ([deleteDriver] does not touch the routes): after Jane
    is deleted her route is returned by [getRoutesByDriver] for no current
    driver id, and yet it is not among the unassigned routes. *)
Lemma unassigned_complement_counterexample :
  exists r,
    In r (routes danglingWorld)
    /\ (~ exists d, In d (drivers danglingWorld)
                    /\ In r (eval (getRoutesByDriver (Driver.id d)) danglingWorld))
    /\ ~ In r (eval getUnassignedRoutes danglingWorld).
Proof.
  eexists. split; [left; reflexivity|]. split.
  - intros (d & [<-|[]] & Hr). apply getRoutesByDriver_In in Hr.
    destruct Hr as [_ Hr]. vm_compute in Hr. discriminate.
  - vm_compute. tauto.
Qed.

(** ** The week shown by the calendar *)

Lemma startOfDay_shift (t k : Z) :
  startOfDay (t + k * msPerDay) = startOfDay t + k * msPerDay.
Proof.
  unfold startOfDay, msPerDay. rewrite Z.div_add by discriminate. lia.
Qed.

Lemma startOfDay_bounds (t : Z) : startOfDay t <= t < startOfDay t + msPerDay.
Proof.
  unfold startOfDay, msPerDay.
  pose proof (Z.mod_pos_bound t 86400000 ltac:(lia)).
  pose proof (Z.div_mod t 86400000 ltac:(lia)). lia.
Qed.

Lemma getDay_range (t : Date) : 0 <= getDay t < 7.
Proof. unfold getDay. apply Z.mod_pos_bound. lia. Qed.

Lemma getDay_shift (t k : Z) : getDay (t + (k * 7) * msPerDay) = getDay t.
Proof.
  unfold getDay, msPerDay. rewrite Z.div_add by discriminate.
  replace (t / 86400000 + k * 7 + 4) with (t / 86400000 + 4 + k * 7) by lia.
  apply Z.mod_add. discriminate.
Qed.

(** The number of days that [startOfWeek] goes back to reach a Monday. *)
Lemma monday_diff (l : Z) :
  (if getDay l <? 1 then 7 else 0) + getDay l - 1 = (getDay l + 6) mod 7.
Proof.
  pose proof (getDay_range l) as Hg.
  destruct (Z.ltb_spec (getDay l) 1) as [H|H].
  - assert (getDay l = 0) as -> by lia. reflexivity.
  - replace (getDay l + 6) with (getDay l - 1 + 1 * 7) by lia.
    rewrite Z.mod_add by discriminate. rewrite Z.mod_small; lia.
Qed.

(** [mondayOf l] is a Monday at midnight, at most six days and a part
    of a day before [l]. *)
Lemma mondayOf_spec (l : Z) :
  getDay (mondayOf l) = 1
  /\ startOfDay (mondayOf l) = mondayOf l
  /\ mondayOf l <= l < mondayOf l + 7 * msPerDay
  /\ exists k, 0 <= k < 7 /\ startOfDay l = mondayOf l + k * msPerDay.
Proof.
  unfold mondayOf.
  pose proof (getDay_range l) as Hg.
  assert (Hk : 0 <= (getDay l + 6) mod 7 < 7) by (apply Z.mod_pos_bound; lia).
  pose proof (startOfDay_bounds l) as Hsod.
  assert (Hday : (startOfDay l - (getDay l + 6) mod 7 * msPerDay) / msPerDay
                 = l / msPerDay - (getDay l + 6) mod 7).
  { unfold startOfDay.
    replace (l / msPerDay * msPerDay - (getDay l + 6) mod 7 * msPerDay)
      with ((l / msPerDay - (getDay l + 6) mod 7) * msPerDay) by lia.
    unfold msPerDay. rewrite Z.div_mul by discriminate. reflexivity. }
  split; [|split; [|split]].
  - unfold getDay at 1. rewrite Hday. unfold getDay.
    set (q := l / msPerDay).
    pose proof (Z.div_mod (q + 4) 7 ltac:(lia)) as H1.
    pose proof (Z.mod_pos_bound (q + 4) 7 ltac:(lia)) as H2.
    pose proof (Z.div_mod ((q + 4) mod 7 + 6) 7 ltac:(lia)) as H3.
    pose proof (Z.mod_pos_bound ((q + 4) mod 7 + 6) 7 ltac:(lia)) as H4.
    set (a := (q + 4) mod 7) in *. set (b := (a + 6) mod 7) in *.
    replace (q - b + 4) with (1 + ((q + 4) / 7 + (a + 6) / 7 - 1) * 7) by lia.
    rewrite Z.mod_add by discriminate. reflexivity.
  - unfold startOfDay at 1. rewrite Hday. unfold startOfDay. lia.
  - unfold msPerDay in *. lia.
  - exists ((getDay l + 6) mod 7). split; [exact Hk | lia].
Qed.

Lemma mondayOf_shift (l k : Z) :
  mondayOf (l + (k * 7) * msPerDay) = mondayOf l + (k * 7) * msPerDay.
Proof. unfold mondayOf. rewrite startOfDay_shift, getDay_shift. lia. Qed.

Lemma TimeClip_in_range (time : Z) : Z.abs time <= maxTime -> TimeClip time = Some time.
Proof. intros H. unfold TimeClip. apply Z.leb_le in H. rewrite H. reflexivity. Qed.

Section ConstantOffset.

Context (tz : TimeZone.t) (offset : Z) (Hconstant : TimeZone.constant tz offset).

Lemma LocalTime_constant (u : Z) : LocalTime tz u = u + offset.
Proof. unfold LocalTime. rewrite (proj1 Hconstant). reflexivity. Qed.

Lemma UTC_constant (l : Z) : UTC tz l = l - offset.
Proof. unfold UTC. rewrite (proj2 Hconstant). reflexivity. Qed.

Lemma setDate_plus_constant (u amount : Z) :
  Z.abs (u + amount * msPerDay) <= maxTime ->
  setDate_plus tz (Some u) amount = Some (u + amount * msPerDay).
Proof.
  intros H. unfold setDate_plus. rewrite LocalTime_constant, UTC_constant.
  replace (u + offset + amount * msPerDay - offset) with (u + amount * msPerDay) by lia.
  apply TimeClip_in_range. exact H.
Qed.

Lemma addDays_constant (u amount : Z) :
  Z.abs (u + amount * msPerDay) <= maxTime ->
  addDays tz (Some u) amount = Some (u + amount * msPerDay).
Proof.
  intros H. unfold addDays. destruct (Z.eqb_spec amount 0) as [->|_].
  - f_equal. lia.
  - apply setDate_plus_constant. exact H.
Qed.

(** In a zone of constant offset [startOfWeek] is the Monday of the local
    week. *)
Lemma startOfWeek_constant (u : Z) :
  Z.abs u <= maxTime - 7 * msPerDay ->
  startOfWeek tz (Some u) 1 = Some (mondayOf (u + offset) - offset).
Proof.
  intros Hu. unfold startOfWeek. rewrite LocalTime_constant, monday_diff.
  set (k := (getDay (u + offset) + 6) mod 7).
  assert (Hk : 0 <= k < 7) by (apply Z.mod_pos_bound; lia).
  rewrite setDate_plus_constant by (unfold msPerDay in *; lia).
  unfold setHours_0. rewrite LocalTime_constant, UTC_constant.
  replace (u + - k * msPerDay + offset) with (u + offset + (- k) * msPerDay) by lia.
  rewrite startOfDay_shift.
  replace (startOfDay (u + offset) + - k * msPerDay) with (mondayOf (u + offset))
    by (unfold mondayOf; fold k; lia).
  apply TimeClip_in_range.
  pose proof (mondayOf_spec (u + offset)) as (_ & _ & Hb & _).
  unfold msPerDay in *. lia.
Qed.

Lemma weekDays_constant (u : Z) :
  Z.abs u <= maxTime - 7 * msPerDay ->
  weekDays tz (Some u)
  = map (fun i => Some (mondayOf (u + offset) - offset + i * msPerDay))
        [0; 1; 2; 3; 4; 5; 6].
Proof.
  intros Hu. unfold weekDays. rewrite (startOfWeek_constant u Hu).
  pose proof (mondayOf_spec (u + offset)) as (_ & _ & Hb & _).
  cbn [seq map Z.of_nat Pos.of_succ_nat Pos.succ].
  rewrite !addDays_constant by (unfold msPerDay in *; lia).
  reflexivity.
Qed.

End ConstantOffset.

(** X1. In a time zone whose offset does not change, and away from the ends
    of the range of Date, the seven days of the calendar are 24 hours
    apart, the first of them is a Monday at local midnight, and the week
    contains the anchor date, which falls on the same local day as one of
    the seven. *)
Theorem weekDays_window (tz : TimeZone.t) (offset currentWeek : Z) :
  TimeZone.constant tz offset ->
  Z.abs currentWeek <= maxTime - 7 * msPerDay ->
  exists monday,
    weekDays tz (Some currentWeek)
    = map (fun i => Some (monday + i * msPerDay)) [0; 1; 2; 3; 4; 5; 6]
    /\ getDay (LocalTime tz monday) = 1
    /\ startOfDay (LocalTime tz monday) = LocalTime tz monday
    /\ monday <= currentWeek < monday + 7 * msPerDay
    /\ exists day,
         In (Some day) (weekDays tz (Some currentWeek))
         /\ isSameDay (LocalTime tz day) (LocalTime tz currentWeek) = true.
Proof.
  intros Hc Hu.
  pose proof (weekDays_constant tz offset Hc currentWeek Hu) as Hdays.
  destruct (mondayOf_spec (currentWeek + offset)) as (Hmon & Hmid & Hb & k & Hk & Hsame).
  set (m := mondayOf (currentWeek + offset)) in *.
  exists (m - offset).
  rewrite !(LocalTime_constant tz offset Hc).
  replace (m - offset + offset) with m by lia.
  split; [exact Hdays|]. split; [exact Hmon|]. split; [exact Hmid|].
  split; [lia|].
  exists (m - offset + k * msPerDay). split.
  - rewrite Hdays.
    assert (Hcases : k = 0 \/ k = 1 \/ k = 2 \/ k = 3 \/ k = 4 \/ k = 5 \/ k = 6) by lia.
    cbn [map In]. destruct Hcases as [->|[->|[->|[->|[->|[->| ->]]]]]]; tauto.
  - rewrite (LocalTime_constant tz offset Hc).
    unfold isSameDay. apply Z.eqb_eq.
    replace (m - offset + k * msPerDay + offset) with (m + k * msPerDay) by lia.
    rewrite startOfDay_shift, Hmid. symmetry. exact Hsame.
Qed.

Lemma weekDays_window_witness :
  TimeZone.constant (TimeZone.fixed (2 * msPerHour)) (2 * msPerHour)
  /\ Z.abs (dateTimeLocal 2024 1 4 15 30) <= maxTime - 7 * msPerDay
  /\ exists monday,
       weekDays (TimeZone.fixed (2 * msPerHour)) (Some (dateTimeLocal 2024 1 4 15 30))
       = map (fun i => Some (monday + i * msPerDay)) [0; 1; 2; 3; 4; 5; 6]
       /\ getDay (LocalTime (TimeZone.fixed (2 * msPerHour)) monday) = 1.
Proof.
  assert (Hc : TimeZone.constant (TimeZone.fixed (2 * msPerHour)) (2 * msPerHour))
    by (split; reflexivity).
  assert (Hu : Z.abs (dateTimeLocal 2024 1 4 15 30) <= maxTime - 7 * msPerDay)
    by (apply Z.leb_le; vm_compute; reflexivity).
  split; [exact Hc|]. split; [exact Hu|].
  destruct (weekDays_window (TimeZone.fixed (2 * msPerHour)) (2 * msPerHour)
              (dateTimeLocal 2024 1 4 15 30) Hc Hu)
    as (monday & Hdays & Hmon & _).
  exists monday. exact (conj Hdays Hmon).
Defined.

(** Where the offset changes the days of the week are not 24 hours apart
    and need not start at midnight: in the week in which the local times
    from 00:00 to 01:00 of Friday, April 26 are skipped, the fifth day of
    the calendar is that Friday at 01:00 local time, and the sixth comes 23
    hours after it. *)
Example weekDays_offset_change :
  weekDays cairo2024 (Some (cairoApril 24 12 0))
  = [Some (cairoApril 22 0 0); Some (cairoApril 23 0 0); Some (cairoApril 24 0 0);
     Some (cairoApril 25 0 0); Some (cairoApril 26 1 0); Some (cairoApril 27 0 0);
     Some (cairoApril 28 0 0)]
  /\ LocalTime cairo2024 (cairoApril 26 1 0) = dateTimeLocal 2024 4 26 1 0
  /\ startOfDay (dateTimeLocal 2024 4 26 1 0) <> dateTimeLocal 2024 4 26 1 0
  /\ cairoApril 27 0 0 - cairoApril 26 1 0 = 23 * msPerHour.
Proof. vm_compute. repeat split. discriminate. Qed.

(** X2. In a time zone whose offset does not change, and away from the ends
    of the range of Date, "Next" and "Previous" move every day of the week
    shown by exactly seven days, forward and backward, and undo each
    other. *)
Theorem week_navigation (tz : TimeZone.t) (offset currentWeek : Z) :
  TimeZone.constant tz offset ->
  Z.abs currentWeek <= maxTime - 14 * msPerDay ->
  weekDays tz (goToNextWeek tz (Some currentWeek))
  = map (fun day => addDays tz day 7) (weekDays tz (Some currentWeek))
  /\ weekDays tz (goToPreviousWeek tz (Some currentWeek))
     = map (fun day => addDays tz day (-7)) (weekDays tz (Some currentWeek))
  /\ goToNextWeek tz (Some currentWeek) = Some (currentWeek + 7 * msPerDay)
  /\ goToPreviousWeek tz (Some currentWeek) = Some (currentWeek - 7 * msPerDay)
  /\ goToPreviousWeek tz (goToNextWeek tz (Some currentWeek)) = Some currentWeek
  /\ goToNextWeek tz (goToPreviousWeek tz (Some currentWeek)) = Some currentWeek.
Proof.
  intros Hc Hu.
  assert (Hnext : goToNextWeek tz (Some currentWeek) = Some (currentWeek + 7 * msPerDay)).
  { unfold goToNextWeek, addWeeks.
    rewrite (addDays_constant tz offset Hc) by (unfold msPerDay in *; lia).
    f_equal. }
  assert (Hprev : goToPreviousWeek tz (Some currentWeek) = Some (currentWeek - 7 * msPerDay)).
  { unfold goToPreviousWeek, subWeeks, addWeeks.
    rewrite (addDays_constant tz offset Hc) by (unfold msPerDay in *; lia).
    f_equal. }
  pose proof (mondayOf_spec (currentWeek + offset)) as (_ & _ & Hb & _).
  pose proof (mondayOf_shift (currentWeek + offset) 1) as Hs1.
  pose proof (mondayOf_shift (currentWeek + offset) (-1)) as Hs2.
  set (m := mondayOf (currentWeek + offset)) in *.
  split; [|split; [|split; [exact Hnext|split; [exact Hprev|split]]]].
  - rewrite Hnext.
    rewrite !(weekDays_constant tz offset Hc) by (unfold msPerDay in *; lia).
    replace (currentWeek + 7 * msPerDay + offset)
      with (currentWeek + offset + 1 * 7 * msPerDay) by lia.
    rewrite Hs1. cbn [map].
    rewrite !(addDays_constant tz offset Hc) by (unfold msPerDay in *; lia).
    repeat (f_equal; try lia).
  - rewrite Hprev.
    rewrite !(weekDays_constant tz offset Hc) by (unfold msPerDay in *; lia).
    replace (currentWeek - 7 * msPerDay + offset)
      with (currentWeek + offset + -1 * 7 * msPerDay) by lia.
    rewrite Hs2. cbn [map].
    rewrite !(addDays_constant tz offset Hc) by (unfold msPerDay in *; lia).
    repeat (f_equal; try lia).
  - rewrite Hnext. unfold goToPreviousWeek, subWeeks, addWeeks.
    rewrite (addDays_constant tz offset Hc) by (unfold msPerDay in *; lia).
    f_equal. lia.
  - rewrite Hprev. unfold goToNextWeek, addWeeks.
    rewrite (addDays_constant tz offset Hc) by (unfold msPerDay in *; lia).
    f_equal. lia.
Qed.

Lemma week_navigation_witness :
  TimeZone.constant (TimeZone.fixed (2 * msPerHour)) (2 * msPerHour)
  /\ Z.abs (dateTimeLocal 2024 1 4 15 30) <= maxTime - 14 * msPerDay
  /\ goToPreviousWeek (TimeZone.fixed (2 * msPerHour))
       (goToNextWeek (TimeZone.fixed (2 * msPerHour)) (Some (dateTimeLocal 2024 1 4 15 30)))
     = Some (dateTimeLocal 2024 1 4 15 30).
Proof.
  assert (Hc : TimeZone.constant (TimeZone.fixed (2 * msPerHour)) (2 * msPerHour))
    by (split; reflexivity).
  assert (Hu : Z.abs (dateTimeLocal 2024 1 4 15 30) <= maxTime - 14 * msPerDay)
    by (apply Z.leb_le; vm_compute; reflexivity).
  split; [exact Hc|]. split; [exact Hu|].
  exact (proj1 (proj2 (proj2 (proj2 (proj2
           (week_navigation (TimeZone.fixed (2 * msPerHour)) (2 * msPerHour)
              (dateTimeLocal 2024 1 4 15 30) Hc Hu)))))).
Defined.

(** Where the offset changes "Next" and "Previous" need not undo each
    other: from 00:30 on Friday, April 19, "Next" asks for 00:30 on April
    26, a local time that is skipped, and gives 01:30; "Previous" then
    gives 01:30 on April 19. *)
Example week_navigation_offset_change :
  goToNextWeek cairo2024 (Some (cairoApril 19 0 30)) = Some (cairoApril 26 1 30)
  /\ goToPreviousWeek cairo2024 (goToNextWeek cairo2024 (Some (cairoApril 19 0 30)))
     = Some (cairoApril 19 1 30)
  /\ cairoApril 19 1 30 <> cairoApril 19 0 30.
Proof. vm_compute. repeat split. discriminate. Qed.

Example weekDays_sample :
  weekDays (TimeZone.fixed 0) (Some (dateTimeLocal 2024 1 4 15 30))
  = map (fun d => Some (dateTimeLocal 2024 1 d 0 0)) [1; 2; 3; 4; 5; 6; 7]
  /\ weekDays (TimeZone.fixed 0) (Some (dateTimeLocal 2024 1 7 23 59))
     = map (fun d => Some (dateTimeLocal 2024 1 d 0 0)) [1; 2; 3; 4; 5; 6; 7]
  /\ weekDays (TimeZone.fixed 0) (Some (dateTimeLocal 2024 1 8 0 0))
     = map (fun d => Some (dateTimeLocal 2024 1 d 0 0)) [8; 9; 10; 11; 12; 13; 14]
  /\ weekDays (TimeZone.fixed 0) (Some maxTime)
     = [Some (maxTime - 5 * msPerDay); Some (maxTime - 4 * msPerDay);
        Some (maxTime - 3 * msPerDay); Some (maxTime - 2 * msPerDay);
        Some (maxTime - msPerDay); Some maxTime; None].
Proof. vm_compute. repeat split. Qed.

(** ** Which cells of the grid a route marks *)



Lemma timeSlots_hours_range (timeSlot : TimeSlot.t) :
  In timeSlot timeSlots -> 6 <= TimeSlot.hour timeSlot <= 22.
Proof.
  intros H. apply (in_map TimeSlot.hour) in H.
  rewrite timeSlots_hours in H. simpl in H.
  repeat (destruct H as [<-|H]; [lia|]). contradiction.
Qed.

(** X4. The grid has slots from 6 AM to 10 PM only, and a route marks cells
    on the day it starts only: a driver, not on leave, whose routes all
    start after 23:00 is shown as [available] in every cell of every day,
    whatever the routes are and however long they last. *)
Theorem late_routes_never_shown
    (routes : list Route.t) (driver : Driver.t) (day : Date) (timeSlot : TimeSlot.t) :
  Driver.status driver <> on_leave ->
  Forall (fun r => setHours (Route.startTime r) 23 < Route.startTime r
                   /\ Route.startTime r <= Route.endTime r) routes ->
  In timeSlot timeSlots ->
  getDriverAvailability routes driver day timeSlot
  = DriverAvailability.mk driver available None.
Proof.
  intros Hs Hlate Hslot.
  apply timeSlots_hours_range in Hslot.
  unfold getDriverAvailability.
  apply DriverStatus_eqb_neq in Hs. rewrite Hs.
  rewrite find_absent; [reflexivity|].
  intros r Hr. rewrite Forall_forall in Hlate. destruct (Hlate r Hr) as [H23 Hle].
  apply not_true_is_false. intros Hcov.
  apply (routeCoversSlot_closed driver day timeSlot r Hle) in Hcov.
  destruct Hcov as (_ & Hday & Hov).
  unfold code_overlap, setHours in *. rewrite Hday in H23.
  unfold msPerHour, Date in *. lia.
Qed.

Lemma late_routes_never_shown_witness :
  Driver.status jane <> on_leave
  /\ Forall (fun r => setHours (Route.startTime r) 23 < Route.startTime r
                      /\ Route.startTime r <= Route.endTime r) [route_2330_2350]
  /\ In (slotAt 22) timeSlots
  /\ getDriverAvailability [route_2330_2350] jane jan1 (slotAt 22)
     = DriverAvailability.mk jane available None.
Proof.
  assert (Hs : Driver.status jane <> on_leave) by discriminate.
  assert (Hlate : Forall (fun r => setHours (Route.startTime r) 23 < Route.startTime r
                                   /\ Route.startTime r <= Route.endTime r)
                         [route_2330_2350]).
  { constructor; [|constructor]. split; [reflexivity | vm_compute; discriminate]. }
  assert (Hin : In (slotAt 22) timeSlots).
  { vm_compute. repeat (first [left; reflexivity | right]). }
  exact (conj Hs (conj Hlate (conj Hin
    (late_routes_never_shown [route_2330_2350] jane jan1 (slotAt 22) Hs Hlate Hin)))).
Defined.

(** ** Names, route codes and counters of the dashboard *)

Lemma find_filter_head {A} (f : A -> bool) (l : list A) :
  find f l = hd_error (filter f l).
Proof.
  induction l as [|a l IH]; simpl; [reflexivity|].
  destruct (f a); [reflexivity | exact IH].
Qed.

Lemma filter_partition_length {A} (f : A -> bool) (l : list A) :
  (List.length (filter f l) + List.length (filter (fun x => negb (f x)) l))%nat
  = List.length l.
Proof.
  induction l as [|a l IH]; simpl; [reflexivity|].
  destruct (f a); simpl; lia.
Qed.

(** X5. [deleteDriver(id)] removes the drivers with the id and nothing else:
    the other drivers stay in order and the routes are not touched, so the
    routes of the deleted driver are still returned by
    [getRoutesByDriver(id)], are not unassigned, and both pages show
    "Unknown Driver" for them. *)
Theorem deleteDriver_leaves_routes_dangling (w : World) (id : string) :
  id <> "" ->
  let w' := exec (deleteDriver id) w in
  drivers w' = filter (fun d => negb (Driver.id d =? id)%string) (drivers w)
  /\ routes w' = routes w
  /\ eval (getRoutesByDriver id) w' = eval (getRoutesByDriver id) w
  /\ eval getUnassignedRoutes w' = eval getUnassignedRoutes w
  /\ getDriverName (drivers w') (Some id) = "Unknown Driver"
  /\ RoutesPage.getDriverName (drivers w') (Some id) = "Unknown Driver".
Proof.
  intros Hid w'.
  destruct (deleteDriver_world w id) as (Hd & Hr & _). fold w' in Hd, Hr.
  assert (Hfind : find (fun d => (Driver.id d =? id)%string) (drivers w') = None).
  { apply find_absent. intros d Hin. apply String.eqb_neq.
    exact (deleteDriver_no_such_id w id d Hin). }
  assert (Htruthy : truthy (Some id) = true).
  { simpl. apply negb_true_iff. apply String.eqb_neq. exact Hid. }
  repeat split.
  - exact Hd.
  - exact Hr.
  - unfold eval, getRoutesByDriver, bind, get, ret. simpl. rewrite Hr. reflexivity.
  - unfold eval, getUnassignedRoutes, bind, get, ret. simpl. rewrite Hr. reflexivity.
  - unfold getDriverName. rewrite Htruthy, Hfind. reflexivity.
  - unfold RoutesPage.getDriverName. rewrite Htruthy, Hfind. reflexivity.
Qed.

Lemma deleteDriver_leaves_routes_dangling_witness :
  "0-uuid" <> ""
  /\ drivers (exec (deleteDriver "0-uuid") sampleWorld)
     = filter (fun d => negb (Driver.id d =? "0-uuid")%string) (drivers sampleWorld)
  /\ routes (exec (deleteDriver "0-uuid") sampleWorld) = routes sampleWorld
  /\ eval (getRoutesByDriver "0-uuid") (exec (deleteDriver "0-uuid") sampleWorld)
     = eval (getRoutesByDriver "0-uuid") sampleWorld
  /\ eval getUnassignedRoutes (exec (deleteDriver "0-uuid") sampleWorld)
     = eval getUnassignedRoutes sampleWorld
  /\ getDriverName (drivers (exec (deleteDriver "0-uuid") sampleWorld)) (Some "0-uuid")
     = "Unknown Driver"
  /\ RoutesPage.getDriverName (drivers (exec (deleteDriver "0-uuid") sampleWorld))
                              (Some "0-uuid")
     = "Unknown Driver".
Proof.
  assert (Hid : "0-uuid" <> "") by discriminate.
  exact (conj Hid (deleteDriver_leaves_routes_dangling sampleWorld "0-uuid" Hid)).
Defined.

Example getDriverName_sample :
  getDriverName (drivers sampleWorld) (Some "0-uuid") = "Jane Doe"
  /\ getDriverName (drivers danglingWorld) (Some "0-uuid") = "Unknown Driver"
  /\ getDriverName (drivers sampleWorld) None = ""
  /\ getDriverName (drivers sampleWorld) (Some "") = ""
  /\ RoutesPage.getDriverName (drivers sampleWorld) None = "Unassigned".
Proof. vm_compute. repeat split. Qed.

(** X6. The route code that the dashboard shows beside a driver is that of
    the first route, in the order of the collection, among the routes that
    [getRoutesByDriver] returns for the driver, and it is empty when there
    is none; likewise [getDriver] returns the first driver with the id. *)
Theorem getAssignedRouteCode_first_route (w : World) (driverId : string) :
  getAssignedRouteCode (routes w) driverId
  = match eval (getRoutesByDriver driverId) w with
    | assignedRoute :: _ => Route.routeCode assignedRoute
    | [] => ""
    end
  /\ eval (getDriver driverId) w
     = hd_error (filter (fun d => (Driver.id d =? driverId)%string) (drivers w)).
Proof.
  split.
  - unfold getAssignedRouteCode, eval, getRoutesByDriver, bind, get, ret. simpl.
    rewrite find_filter_head. destruct (filter _ (routes w)); reflexivity.
  - unfold eval, getDriver, bind, get, ret. simpl. apply find_filter_head.
Qed.

(** X7. The counters of the dashboard add up: assigned and unassigned
    routes make the total of the routes, and the drivers of the three
    statuses make the total of the drivers. *)
Theorem dashboard_counters_add_up (w : World) :
  (assignedRoutes (routes w) + List.length (eval getUnassignedRoutes w))%nat
  = totalRoutes (routes w)
  /\ availableDriversCount (drivers w) = List.length (eval (getDriversByStatus available) w)
  /\ (List.length (eval (getDriversByStatus available) w)
      + List.length (eval (getDriversByStatus assigned) w)
      + List.length (eval (getDriversByStatus on_leave) w))%nat
     = totalDrivers (drivers w).
Proof.
  unfold assignedRoutes, totalRoutes, availableDriversCount, totalDrivers,
    eval, getUnassignedRoutes, getDriversByStatus, bind, get, ret. simpl.
  split; [apply filter_partition_length|]. split; [reflexivity|].
  induction (drivers w) as [|d l IH]; simpl; [reflexivity|].
  destruct (Driver.status d); simpl; lia.
Qed.

(** ** More on the stores *)

(** X8. When the id that the generator yields is not in use, [addRoute]
    puts the new route at the end of the collection without touching the
    drivers; [getRoute] with that id returns it, with the fields of the
    input; it is returned by [getRoutesByDriver] for the driver id of the
    input when there is one, and by [getUnassignedRoutes] when there is none
    (or an empty one). Nothing checks that the driver exists. *)
Theorem addRoute_then_getRoute (env : Env) (w : World) (input : RouteInput.t) :
  (forall r, In r (routes w) -> Route.id r <> uuidv4 env (uuidCalls w)) ->
  let newId := uuidv4 env (uuidCalls w) in
  let w' := exec (addRoute env input) w in
  exists r,
    eval (getRoute newId) w' = Some r
    /\ routes w' = routes w ++ [r]
    /\ drivers w' = drivers w
    /\ Route.id r = newId
    /\ Route.routeCode r = RouteInput.routeCode input
    /\ Route.origin r = RouteInput.origin input
    /\ Route.destination r = RouteInput.destination input
    /\ Route.startTime r = RouteInput.startTime input
    /\ Route.endTime r = RouteInput.endTime input
    /\ Route.assignedDriverId r = RouteInput.assignedDriverId input
    /\ (forall a, RouteInput.assignedDriverId input = Some a ->
                  In r (eval (getRoutesByDriver a) w'))
    /\ (truthy (RouteInput.assignedDriverId input) = false ->
        In r (eval getUnassignedRoutes w')).
Proof.
  intros Hfresh newId w'.
  destruct (addRoute_world env w input) as (Hroutes & Hdrivers & _).
  cbv zeta in Hroutes. fold w' in Hroutes, Hdrivers.
  eexists. split; [|split; [exact Hroutes|split; [exact Hdrivers|]]].
  - unfold eval, getRoute, bind, get, ret. cbn [fst].
    rewrite Hroutes, find_app.
    rewrite find_absent by (intros r Hr; apply String.eqb_neq; auto).
    simpl. rewrite String.eqb_refl. reflexivity.
  - simpl. repeat split.
    + intros a Ha. apply getRoutesByDriver_In. rewrite Hroutes. split.
      * apply in_or_app. right. left. reflexivity.
      * exact Ha.
    + intros Hfalsy. unfold eval, getUnassignedRoutes, bind, get, ret. cbn [fst].
      rewrite Hroutes. apply filter_In. split.
      * apply in_or_app. right. left. reflexivity.
      * simpl. rewrite Hfalsy. reflexivity.
Qed.

Lemma addRoute_then_getRoute_witness :
  (forall r, In r (routes sampleWorld) -> Route.id r <> uuidv4 sampleEnv (uuidCalls sampleWorld))
  /\ exists r,
      eval (getRoute (uuidv4 sampleEnv (uuidCalls sampleWorld)))
           (exec (addRoute sampleEnv (routeInputFor (Some "1-uuid"))) sampleWorld) = Some r
      /\ routes (exec (addRoute sampleEnv (routeInputFor (Some "1-uuid"))) sampleWorld)
         = routes sampleWorld ++ [r]
      /\ Route.assignedDriverId r = Some "1-uuid".
Proof.
  assert (Hfresh : forall r, In r (routes sampleWorld) ->
                             Route.id r <> uuidv4 sampleEnv (uuidCalls sampleWorld)).
  { intros r [<-|[]]. vm_compute. discriminate. }
  split; [exact Hfresh|].
  destruct (addRoute_then_getRoute sampleEnv sampleWorld (routeInputFor (Some "1-uuid")) Hfresh)
    as (r & Hget & Hroutes & _ & _ & _ & _ & _ & _ & _ & Hassigned & _).
  exists r. exact (conj Hget (conj Hroutes Hassigned)).
Defined.

Section UpdateLookup.

Context (env : Env).

(** When an element passes [test], the first such element is patched with
    the first reading of the clock, and it is still the first that passes. *)
Lemma mapM_patch_find {A} (test : A -> bool) (patch : A -> Date -> A)
    (l : list A) (w : World) (d : A) :
  (forall x t, test (patch x t) = test x) ->
  find test l = Some d ->
  exists ys k,
    mapM (fun x => if test x then t <- newDate env ;; ret (patch x t) else ret x) l w
    = (ys, advance k w)
    /\ find test ys = Some (patch d (now env (clockReads w))).
Proof.
  intros Hkeep. revert w. induction l as [|a l IH]; intros w Hfind; [discriminate|].
  simpl in Hfind. rewrite mapM_cons. cbv beta. destruct (test a) eqn:Ha.
  - injection Hfind as ->. rewrite patch_step.
    destruct (mapM_patch env test patch l (advance 1 w)) as (ys & k & Hrun & _).
    rewrite Hrun, advance_advance.
    exists (patch d (now env (clockReads w)) :: ys), (k + 1)%nat.
    split; [reflexivity|]. simpl. rewrite Hkeep, Ha. reflexivity.
  - unfold ret at 1. destruct (IH w Hfind) as (ys & k & Hrun & Hys).
    rewrite Hrun. exists (a :: ys), k. split; [reflexivity|].
    simpl. rewrite Ha. exact Hys.
Qed.

(** X10. When [getDriver(id)] finds a driver, then after
    [updateDriver(id, updates)] it finds that driver with the fields of the
    patch merged in and the first reading of the clock as updatedAt; one
    line is logged, with the name the driver has after the update. *)
Theorem updateDriver_then_getDriver
    (w : World) (id : string) (updates : DriverUpdates.t) (d : Driver.t) :
  eval (getDriver id) w = Some d ->
  let w' := exec (updateDriver env id updates) w in
  let d' := patchDriver d updates (now env (clockReads w)) in
  eval (getDriver id) w' = Some d'
  /\ Driver.status d' = override (DriverUpdates.status updates) (Driver.status d)
  /\ console w'
     = console w ++ [("Driver updated: " ++ Driver.name d' ++ " (" ++ id ++ ")")%string].
Proof.
  intros Hget w' d'.
  unfold eval, getDriver, bind, get, ret in Hget. simpl in Hget.
  destruct (mapM_patch_find (fun x => (Driver.id x =? id)%string)
                            (fun x t => patchDriver x updates t)
                            (drivers w) w d (fun x t => eq_refl) Hget)
    as (ds & k & Hrun & Hfind).
  fold d' in Hfind.
  assert (Hstep : updateDriver env id updates w
                  = (setDrivers (fun _ => ds) ;;
                     driver <- getDriver id ;;
                     match driver with
                     | Some driver =>
                         console_log ("Driver updated: " ++ Driver.name driver
                                      ++ " (" ++ id ++ ")")%string
                     | None => ret tt
                     end) (advance k w)).
  { unfold updateDriver, bind at 1, get at 1, bind at 1. rewrite Hrun. reflexivity. }
  assert (Hw' : w' = mkWorld ds (routes w) (k + clockReads w) (uuidCalls w)
                       (console w ++ [("Driver updated: " ++ Driver.name d'
                                       ++ " (" ++ id ++ ")")%string])).
  { unfold w', exec. rewrite Hstep.
    unfold bind, setDrivers, getDriver, get, ret, console_log. simpl.
    rewrite Hfind. reflexivity. }
  rewrite Hw'. repeat split.
  unfold eval, getDriver, bind, get, ret. simpl. exact Hfind.
Qed.

(** X11. Whatever the id and the patch, [updateDriver] and [updateRoute]
    keep the number and the order of the elements, and the id and createdAt
    of each of them. *)
Theorem updates_keep_identity
    (w : World) (id : string) (driverPatch : DriverUpdates.t) (routePatch : RouteUpdates.t) :
  Forall2 (fun d d' => Driver.id d' = Driver.id d
                       /\ Driver.createdAt d' = Driver.createdAt d)
          (drivers w) (drivers (exec (updateDriver env id driverPatch) w))
  /\ Forall2 (fun r r' => Route.id r' = Route.id r
                          /\ Route.createdAt r' = Route.createdAt r)
             (routes w) (routes (exec (updateRoute env id routePatch) w)).
Proof.
  split.
  - destruct (updateDriver_world env w id driverPatch) as (Hrel & _).
    eapply Forall2_impl; [|exact Hrel]. simpl. intros d d'.
    destruct (Driver.id d =? id)%string.
    + intros (n & _ & ->). split; reflexivity.
    + intros ->. split; reflexivity.
  - destruct (updateRoute_world env w id routePatch) as (Hrel & _).
    eapply Forall2_impl; [|exact Hrel]. simpl. intros r r'.
    destruct (Route.id r =? id)%string.
    + intros (n & _ & ->). split; reflexivity.
    + intros ->. split; reflexivity.
Qed.

End UpdateLookup.

Lemma updateDriver_then_getDriver_witness :
  exists d,
    eval (getDriver "1-uuid") sampleWorld = Some d
    /\ eval (getDriver "1-uuid") (exec (updateDriver sampleEnv "1-uuid" onLeavePatch) sampleWorld)
       = Some (patchDriver d onLeavePatch (now sampleEnv (clockReads sampleWorld)))
    /\ Driver.status (patchDriver d onLeavePatch (now sampleEnv (clockReads sampleWorld)))
       = on_leave.
Proof.
  eexists. split; [reflexivity|].
  destruct (updateDriver_then_getDriver sampleEnv sampleWorld "1-uuid" onLeavePatch _ eq_refl)
    as (Hget & Hstatus & _).
  exact (conj Hget Hstatus).
Defined.

(** ** Identifiers and timestamps in the reachable worlds *)

Lemma Forall_filter_keep {A} (P : A -> Prop) (f : A -> bool) (l : list A) :
  Forall P l -> Forall P (filter f l).
Proof.
  intros H. apply Forall_forall. intros x Hx. apply filter_In in Hx.
  rewrite Forall_forall in H. apply H. tauto.
Qed.

Lemma NoDup_map_filter {A B} (g : A -> B) (f : A -> bool) (l : list A) :
  NoDup (map g l) -> NoDup (map g (filter f l)).
Proof.
  induction l as [|a l IH]; simpl; intros H; [constructor|].
  inversion H as [|? ? Hnotin Hrest]; subst.
  destruct (f a); [|auto]. simpl. constructor; [|auto].
  intros Hin. apply Hnotin. apply in_map_iff in Hin. destruct Hin as (x & Hx & Hxin).
  apply in_map_iff. exists x. split; [exact Hx|]. apply filter_In in Hxin. tauto.
Qed.

Lemma NoDup_snoc {A} (l : list A) (x : A) :
  NoDup l -> ~ In x l -> NoDup (l ++ [x]).
Proof.
  induction l as [|a l IH]; simpl; intros Hnd Hx.
  - constructor; [tauto | constructor].
  - inversion Hnd as [|? ? Ha Hl]; subst. constructor.
    + intros Hin. apply in_app_or in Hin. destruct Hin as [Hin|[<-|[]]]; tauto.
    + apply IH; tauto.
Qed.

Lemma Forall2_map_eq {A B} (g : A -> B) (l l' : list A) :
  Forall2 (fun x y => g y = g x) l l' -> map g l' = map g l.
Proof. induction 1; simpl; congruence. Qed.

Section Identifiers.

Context (env : Env) (Hfresh : freshIds env).

(** An identifier drawn now differs from those of the elements that carry
    identifiers drawn earlier. *)
Lemma next_id_not_in {A} (f : A -> string) (u : nat) (l : list A) :
  Forall (fun x => exists n, (n < u)%nat /\ f x = uuidv4 env n) l ->
  ~ In (uuidv4 env u) (map f l).
Proof.
  intros Hissued Hin. apply in_map_iff in Hin. destruct Hin as (x & Hx & Hxin).
  rewrite Forall_forall in Hissued. destruct (Hissued x Hxin) as (n & Hn & Hid).
  rewrite Hid in Hx. apply (proj1 Hfresh) in Hx. lia.
Qed.

Lemma issued_weaken {A} (f : A -> string) (u u' : nat) (l : list A) :
  (u <= u')%nat ->
  Forall (fun x => exists n, (n < u)%nat /\ f x = uuidv4 env n) l ->
  Forall (fun x => exists n, (n < u')%nat /\ f x = uuidv4 env n) l.
Proof.
  intros Hu. apply Forall_impl. intros x (n & Hn & Hx). exists n. split; [lia | exact Hx].
Qed.

Lemma updateDriver_ids (w : World) (id : string) (updates : DriverUpdates.t) :
  map Driver.id (drivers (exec (updateDriver env id updates) w)) = map Driver.id (drivers w).
Proof.
  apply Forall2_map_eq.
  destruct (updateDriver_world env w id updates) as (Hrel & _).
  eapply Forall2_impl; [|exact Hrel]. simpl. intros d d'.
  destruct (Driver.id d =? id)%string; [intros (n & _ & ->) | intros ->]; reflexivity.
Qed.

Lemma updateRoute_ids (w : World) (id : string) (updates : RouteUpdates.t) :
  map Route.id (routes (exec (updateRoute env id updates) w)) = map Route.id (routes w).
Proof.
  apply Forall2_map_eq.
  destruct (updateRoute_world env w id updates) as (Hrel & _).
  eapply Forall2_impl; [|exact Hrel]. simpl. intros r r'.
  destruct (Route.id r =? id)%string; [intros (n & _ & ->) | intros ->]; reflexivity.
Qed.

Lemma issued_by_ids {A} (f : A -> string) (u : nat) (l l' : list A) :
  map f l' = map f l ->
  Forall (fun x => exists n, (n < u)%nat /\ f x = uuidv4 env n) l ->
  Forall (fun x => exists n, (n < u)%nat /\ f x = uuidv4 env n) l'.
Proof.
  revert l. induction l' as [|y l' IH]; intros l Hmap Hl; [constructor|].
  destruct l as [|x l]; [discriminate|]. simpl in Hmap. injection Hmap as Hy Hmap.
  inversion Hl as [|? ? Hx Hrest]; subst. constructor.
  - rewrite Hy. exact Hx.
  - exact (IH l Hmap Hrest).
Qed.

Lemma reachable_ids (w : World) :
  reachable env w ->
  uniqueIds w /\ driverIdsIssued env w /\ routeIdsIssued env w.
Proof.
  unfold uniqueIds, driverIdsIssued, routeIdsIssued.
  induction 1 as [|w input _ IH|w id updates _ IH|w id _ IH
                  |w input _ IH|w id updates _ IH|w id _ IH].
  - repeat split; constructor.
  - destruct IH as ((Hd & Hr) & Hdi & Hri).
    destruct (addDriver_world env w input) as (Hds & Hrs & _ & Hu). cbv zeta in Hds.
    rewrite Hds, Hrs, Hu. repeat split.
    + rewrite map_app. simpl. apply NoDup_snoc; [exact Hd|].
      apply next_id_not_in. exact Hdi.
    + exact Hr.
    + apply Forall_app. split.
      * apply (issued_weaken Driver.id (uuidCalls w)); [lia | exact Hdi].
      * constructor; [|constructor]. exists (uuidCalls w). split; [lia | reflexivity].
    + apply (issued_weaken Route.id (uuidCalls w)); [lia | exact Hri].
  - destruct IH as ((Hd & Hr) & Hdi & Hri).
    destruct (updateDriver_world env w id updates) as (_ & Hrs & _ & Hu).
    rewrite (updateDriver_ids w id updates), Hrs, Hu. repeat split; try assumption.
    apply (issued_by_ids Driver.id _ (drivers w)); [apply updateDriver_ids | exact Hdi].
  - destruct IH as ((Hd & Hr) & Hdi & Hri).
    destruct (deleteDriver_world w id) as (Hds & Hrs & _ & Hu).
    rewrite Hds, Hrs, Hu. repeat split; try assumption.
    + apply NoDup_map_filter. exact Hd.
    + apply Forall_filter_keep. exact Hdi.
  - destruct IH as ((Hd & Hr) & Hdi & Hri).
    destruct (addRoute_world env w input) as (Hrs & Hds & _ & Hu). cbv zeta in Hrs.
    rewrite Hds, Hrs, Hu. repeat split.
    + exact Hd.
    + rewrite map_app. simpl. apply NoDup_snoc; [exact Hr|].
      apply next_id_not_in. exact Hri.
    + apply (issued_weaken Driver.id (uuidCalls w)); [lia | exact Hdi].
    + apply Forall_app. split.
      * apply (issued_weaken Route.id (uuidCalls w)); [lia | exact Hri].
      * constructor; [|constructor]. exists (uuidCalls w). split; [lia | reflexivity].
  - destruct IH as ((Hd & Hr) & Hdi & Hri).
    destruct (updateRoute_world env w id updates) as (_ & Hds & _ & Hu).
    rewrite (updateRoute_ids w id updates), Hds, Hu. repeat split; try assumption.
    apply (issued_by_ids Route.id _ (routes w)); [apply updateRoute_ids | exact Hri].
  - destruct IH as ((Hd & Hr) & Hdi & Hri).
    destruct (deleteRoute_world w id) as (Hrs & Hds & _ & Hu).
    rewrite Hds, Hrs, Hu. repeat split; try assumption.
    + apply NoDup_map_filter. exact Hr.
    + apply Forall_filter_keep. exact Hri.
Qed.

(** X9. With a generator that never repeats an identifier, in every world
    that the actions of the stores can reach no two drivers share an id and
    no two routes share an id, and every id in use has been drawn from the
    generator. *)
Theorem reachable_unique_ids (w : World) :
  reachable env w ->
  uniqueIds w /\ driverIdsIssued env w /\ routeIdsIssued env w.
Proof. apply reachable_ids. Qed.

End Identifiers.

Lemma tally_injective (n m : nat) : tally n = tally m -> n = m.
Proof.
  revert m. induction n as [|n IH]; destruct m as [|m]; simpl; try discriminate.
  - reflexivity.
  - intros [= H]. f_equal. exact (IH m H).
Qed.

Lemma tallyEnv_fresh : freshIds tallyEnv.
Proof.
  split.
  - intros n m [= H]. exact (tally_injective n m H).
  - intros n. discriminate.
Qed.

Lemma tallyEnv_monotone : monotoneClock tallyEnv.
Proof.
  intros n m Hnm. unfold tallyEnv, now.
  generalize (dateTimeLocal 2024 1 1 7 0). unfold Date. intros base. lia.
Qed.

Lemma tallyWorld_reachable : reachable tallyEnv tallyWorld.
Proof.
  replace tallyWorld
    with (exec (addRoute tallyEnv (routeInputFor (Some "u")))
               (exec (addDriver tallyEnv janeInput) initialWorld))
    by (vm_compute; reflexivity).
  repeat constructor.
Qed.

Lemma reachable_unique_ids_witness :
  freshIds tallyEnv
  /\ reachable tallyEnv tallyWorld
  /\ uniqueIds tallyWorld
  /\ driverIdsIssued tallyEnv tallyWorld
  /\ routeIdsIssued tallyEnv tallyWorld.
Proof.
  exact (conj tallyEnv_fresh (conj tallyWorld_reachable
    (reachable_unique_ids tallyEnv tallyEnv_fresh tallyWorld tallyWorld_reachable))).
Defined.

Section Timestamps.

Context (env : Env) (Hmono : monotoneClock env).

Lemma stamps_weaken {A} (cr up : A -> Date) (c c' : nat) (l : list A) :
  (c <= c')%nat ->
  Forall (fun x => cr x <= up x /\ up x <= now env c) l ->
  Forall (fun x => cr x <= up x /\ up x <= now env c') l.
Proof.
  intros Hc. apply Forall_impl. intros x [H1 H2]. split; [exact H1|].
  apply Z.le_trans with (now env c); [exact H2 | apply Hmono; exact Hc].
Qed.

Lemma stamps_patch {A} (cr up : A -> Date) (test : A -> bool) (patch : A -> Date -> A)
    (c c' : nat) (l l' : list A) :
  (forall x t, cr (patch x t) = cr x /\ up (patch x t) = t) ->
  (c <= c')%nat ->
  Forall2 (fun x y => if test x
                      then exists n, (c <= n < c')%nat /\ y = patch x (now env n)
                      else y = x) l l' ->
  Forall (fun x => cr x <= up x /\ up x <= now env c) l ->
  Forall (fun x => cr x <= up x /\ up x <= now env c') l'.
Proof.
  intros Hpatch Hc Hrel Hl.
  eapply Forall2_transport; [exact Hrel | exact Hl |].
  simpl. intros x y [H1 H2] Hxy. destruct (test x).
  - destruct Hxy as (n & Hn & ->). destruct (Hpatch x (now env n)) as [-> ->]. split.
    + apply Z.le_trans with (up x); [exact H1|].
      apply Z.le_trans with (now env c); [exact H2 | apply Hmono; lia].
    + apply Hmono. lia.
  - subst y. split; [exact H1|].
    apply Z.le_trans with (now env c); [exact H2 | apply Hmono; exact Hc].
Qed.

Lemma reachable_stampsInOrder (w : World) : reachable env w -> stampsInOrder env w.
Proof.
  unfold stampsInOrder.
  induction 1 as [|w input _ IH|w id updates _ IH|w id _ IH
                  |w input _ IH|w id updates _ IH|w id _ IH];
    [|destruct IH as [Hd Hr]..].
  - split; constructor.
  - destruct (addDriver_world env w input) as (Hds & Hrs & Hc & _). cbv zeta in Hds.
    rewrite Hds, Hrs, Hc. split.
    + apply Forall_app. split.
      * apply (stamps_weaken _ _ (clockReads w)); [lia | exact Hd].
      * constructor; [|constructor]. simpl. split; apply Hmono; lia.
    + apply (stamps_weaken _ _ (clockReads w)); [lia | exact Hr].
  - destruct (updateDriver_world env w id updates) as (Hrel & Hrs & Hc & _).
    cbv zeta in Hrel. rewrite Hrs. split.
    + apply (stamps_patch Driver.createdAt Driver.updatedAt
               (fun d => (Driver.id d =? id)%string)
               (fun d t => patchDriver d updates t)
               (clockReads w) _ (drivers w));
        [intros x t; split; reflexivity | exact Hc | exact Hrel | exact Hd].
    + apply (stamps_weaken _ _ (clockReads w)); [exact Hc | exact Hr].
  - destruct (deleteDriver_world w id) as (Hds & Hrs & Hc & _).
    rewrite Hds, Hrs, Hc. split; [apply Forall_filter_keep; exact Hd | exact Hr].
  - destruct (addRoute_world env w input) as (Hrs & Hds & Hc & _). cbv zeta in Hrs.
    rewrite Hds, Hrs, Hc. split.
    + apply (stamps_weaken _ _ (clockReads w)); [lia | exact Hd].
    + apply Forall_app. split.
      * apply (stamps_weaken _ _ (clockReads w)); [lia | exact Hr].
      * constructor; [|constructor]. simpl. split; apply Hmono; lia.
  - destruct (updateRoute_world env w id updates) as (Hrel & Hds & Hc & _).
    cbv zeta in Hrel. rewrite Hds. split.
    + apply (stamps_weaken _ _ (clockReads w)); [exact Hc | exact Hd].
    + apply (stamps_patch Route.createdAt Route.updatedAt
               (fun r => (Route.id r =? id)%string)
               (fun r t => patchRoute r updates t)
               (clockReads w) _ (routes w));
        [intros x t; split; reflexivity | exact Hc | exact Hrel | exact Hr].
  - destruct (deleteRoute_world w id) as (Hrs & Hds & Hc & _).
    rewrite Hds, Hrs, Hc. split; [exact Hd | apply Forall_filter_keep; exact Hr].
Qed.

(** X12. Under a clock that never goes back, in every world that the
    actions of the stores can reach, every driver and every route has a
    createdAt that is not later than its updatedAt. *)
Theorem reachable_created_before_updated (w : World) :
  reachable env w -> createdBeforeUpdated w.
Proof.
  intros Hreach. destruct (reachable_stampsInOrder w Hreach) as [Hd Hr].
  split; [eapply Forall_impl; [|exact Hd] | eapply Forall_impl; [|exact Hr]];
    simpl; intros x [H _]; exact H.
Qed.

End Timestamps.

Lemma reachable_created_before_updated_witness :
  monotoneClock sampleEnv
  /\ reachable sampleEnv sampleWorld
  /\ createdBeforeUpdated sampleWorld.
Proof.
  exact (conj sampleEnv_monotone (conj sampleWorld_reachable
    (reachable_created_before_updated sampleEnv sampleEnv_monotone
       sampleWorld sampleWorld_reachable))).
Defined.

(** ** Form validation *)

Lemma trimEnd_idempotent (s : string) : trimEnd (trimEnd s) = trimEnd s.
Proof.
  induction s as [|c s IH]; simpl; [reflexivity|].
  destruct (isWhitespace c && (trimEnd s =? "")%string) eqn:E; [reflexivity|].
  simpl. rewrite IH, E. reflexivity.
Qed.

Lemma trimStart_head (s : string) :
  match trimStart s with
  | EmptyString => True
  | String c _ => isWhitespace c = false
  end.
Proof.
  induction s as [|c s IH]; simpl; [exact I|].
  destruct (isWhitespace c) eqn:E; [exact IH | simpl; exact E].
Qed.

Lemma trimStart_trimEnd_head (s : string) :
  match s with
  | EmptyString => True
  | String c _ => isWhitespace c = false
  end ->
  trimStart (trimEnd s) = trimEnd s.
Proof.
  destruct s as [|c s]; simpl; [reflexivity|].
  intros Hc. rewrite Hc. simpl. rewrite Hc. reflexivity.
Qed.

(** [trim] of a trimmed string changes nothing. *)
Lemma trim_idempotent (s : string) : trim (trim s) = trim s.
Proof.
  unfold trim.
  rewrite (trimStart_trimEnd_head (trimStart s) (trimStart_head s)).
  apply trimEnd_idempotent.
Qed.

Lemma removeWhitespace_trimStart (s : string) :
  removeWhitespace (trimStart s) = removeWhitespace s.
Proof.
  induction s as [|c s IH]; simpl; [reflexivity|].
  destruct (isWhitespace c) eqn:E; [exact IH | simpl; rewrite E; reflexivity].
Qed.

Lemma removeWhitespace_trimEnd (s : string) :
  removeWhitespace (trimEnd s) = removeWhitespace s.
Proof.
  induction s as [|c s IH]; simpl; [reflexivity|].
  destruct (isWhitespace c) eqn:Ec; simpl.
  - destruct (trimEnd s =? "")%string eqn:E.
    + apply String.eqb_eq in E. rewrite E in IH. simpl in IH. simpl. exact IH.
    + simpl. rewrite Ec. exact IH.
  - rewrite Ec, IH. reflexivity.
Qed.

Lemma removeWhitespace_trim (s : string) :
  removeWhitespace (trim s) = removeWhitespace s.
Proof. unfold trim. rewrite removeWhitespace_trimEnd. apply removeWhitespace_trimStart. Qed.

Lemma whitespace_not_letter (c : ascii) : isWhitespace c = true -> isLetter c = false.
Proof. destruct c as [[] [] [] [] [] [] [] []]; vm_compute; congruence. Qed.

Lemma digit_not_letter (c : ascii) : isDigit c = true -> isLetter c = false.
Proof. destruct c as [[] [] [] [] [] [] [] []]; vm_compute; congruence. Qed.

Lemma noLetters_removeWhitespace (s : string) :
  noLetters (removeWhitespace s) = noLetters s.
Proof.
  induction s as [|c s IH]; simpl; [reflexivity|].
  destruct (isWhitespace c) eqn:E; simpl.
  - rewrite (whitespace_not_letter c E). exact IH.
  - rewrite IH. reflexivity.
Qed.

Lemma allDigits_noLetters (s : string) : allDigits s = true -> noLetters s = true.
Proof.
  induction s as [|c s IH]; simpl; [reflexivity|].
  rewrite andb_true_iff. intros [Hc Hs].
  rewrite (digit_not_letter c Hc), (IH Hs). reflexivity.
Qed.

Lemma phoneRegexTest_cons (a : ascii) (s : string) :
  phoneRegexTest (String a s)
  = if Ascii.eqb a "+"
    then match s with
         | String c digits =>
             isDigit c && negb (Ascii.eqb c "0") && allDigits digits
             && (String.length digits <=? 15)%nat
         | EmptyString => false
         end
    else isDigit a && negb (Ascii.eqb a "0") && allDigits s
         && (String.length s <=? 15)%nat.
Proof. destruct a as [[] [] [] [] [] [] [] []]; reflexivity. Qed.

(** What the regular expression accepts: an optional plus sign, then
    between one and sixteen digits, the first of them not a zero. *)
Lemma phoneRegexTest_shape (s : string) :
  phoneRegexTest s = true <->
  exists c digits,
    (s = String c digits \/ s = String "+" (String c digits))
    /\ isDigit c = true /\ c <> "0"%char
    /\ allDigits digits = true /\ (String.length digits <= 15)%nat.
Proof.
  assert (Hbody : forall c digits,
             isDigit c && negb (Ascii.eqb c "0") && allDigits digits
             && (String.length digits <=? 15)%nat = true
             <-> isDigit c = true /\ c <> "0"%char
                 /\ allDigits digits = true /\ (String.length digits <= 15)%nat).
  { intros c digits.
    rewrite !andb_true_iff, negb_true_iff, Ascii.eqb_neq, Nat.leb_le. tauto. }
  destruct s as [|a s].
  - split; [discriminate | intros (c & d & [H|H] & _); discriminate].
  - rewrite phoneRegexTest_cons. destruct (Ascii.eqb_spec a "+"%char) as [->|Hne].
    + destruct s as [|c digits].
      * split; [discriminate|].
        intros (c & d & [[= <- _]|[=]] & Hc & _). discriminate Hc.
      * rewrite Hbody. split.
        -- intros H. exists c, digits. auto.
        -- intros (c' & d' & [[= <- _]|[= -> ->]] & Hc & Hrest).
           ++ discriminate Hc.
           ++ auto.
    + rewrite Hbody. split.
      * intros H. exists a, s. auto.
      * intros (c & d & [[= -> ->]|[= -> _]] & Hrest);
          [exact Hrest | contradiction Hne; reflexivity].
Qed.

Lemma phoneRegexTest_noLetters (s : string) :
  phoneRegexTest s = true -> noLetters s = true /\ (1 <= String.length s <= 17)%nat.
Proof.
  intros H. apply phoneRegexTest_shape in H.
  destruct H as (c & digits & [-> | ->] & Hc & _ & Hd & Hlen); simpl;
    rewrite (digit_not_letter c Hc), (allDigits_noLetters digits Hd);
    split; try reflexivity; lia.
Qed.

Lemma isValidPhone_noLetters (phone : string) :
  isValidPhone phone = true -> noLetters phone = true /\ noLetters (trim phone) = true.
Proof.
  unfold isValidPhone. intros H.
  destruct (phoneRegexTest_noLetters _ H) as [Hn _].
  rewrite noLetters_removeWhitespace in Hn. split; [exact Hn|].
  rewrite <- noLetters_removeWhitespace, removeWhitespace_trim, noLetters_removeWhitespace.
  exact Hn.
Qed.

Lemma form_phone_check (formData : DriverFormData.t) :
  DriverFormErrors.phone (DriverForm.validateForm formData) = None
  <-> isValidPhone (DriverFormData.phone formData) = true.
Proof.
  unfold DriverForm.validateForm, isValidPhone. simpl.
  set (phone := DriverFormData.phone formData).
  destruct (nonEmpty (trim phone)) eqn:E; simpl.
  - destruct (phoneRegexTest (removeWhitespace phone)); simpl; split; congruence.
  - apply nonEmpty_false in E.
    assert (Hrw : removeWhitespace phone = "")
      by (rewrite <- removeWhitespace_trim, E; reflexivity).
    rewrite Hrw. simpl. split; discriminate.
Qed.

(** X20. On an ASCII phone text, the phone test of the driver form and
    utils' [isValidPhone] accept the same phone numbers: an optional plus
    sign and one to sixteen digits not starting with a zero, once the white
    space is removed. *)
Theorem form_phone_check_is_isValidPhone (formData : DriverFormData.t) :
  asciiOnly (DriverFormData.phone formData) = true ->
  (DriverFormErrors.phone (DriverForm.validateForm formData) = None
   <-> isValidPhone (DriverFormData.phone formData) = true)
  /\ (isValidPhone (DriverFormData.phone formData) = true
      <-> exists c digits,
            (removeWhitespace (DriverFormData.phone formData) = String c digits
             \/ removeWhitespace (DriverFormData.phone formData) = String "+" (String c digits))
            /\ isDigit c = true /\ c <> "0"%char
            /\ allDigits digits = true /\ (String.length digits <= 15)%nat).
Proof. intros _. split; [apply form_phone_check | apply phoneRegexTest_shape]. Qed.

Lemma form_phone_check_is_isValidPhone_witness :
  asciiOnly (DriverFormData.phone (DriverForm.formData janeFormState)) = true
  /\ DriverFormErrors.phone
       (DriverForm.validateForm (DriverForm.formData janeFormState)) = None
  /\ isValidPhone (DriverFormData.phone (DriverForm.formData janeFormState)) = true.
Proof.
  split; [reflexivity|]. split; [|reflexivity].
  apply (proj1 (form_phone_check_is_isValidPhone
                  (DriverForm.formData janeFormState) eq_refl)).
  reflexivity.
Defined.

Example isValidPhone_sample :
  isValidPhone "+15551234567" = true
  /\ isValidPhone " +1 555 123 4567 " = true
  /\ isValidPhone "0155512345" = false
  /\ isValidPhone "+" = false
  /\ isValidPhone "" = false
  /\ isValidPhone "12345678901234567" = false
  /\ isValidPhone "1234567890123456" = true
  /\ isValidPhone "1800FLOWERS" = false.
Proof. vm_compute. repeat split. Qed.

(** X15. With [lower] standing for [String.prototype.toLowerCase], which on
    ASCII text lowers the letters A to Z: for an ASCII query, a driver with
    ASCII name and licenseId and a phone without ASCII letters is found by
    the text search exactly when the query occurs, up to letter case, in its
    name, its licenseId or its phone. For those drivers the search is
    case-insensitive over the three fields, although the phone is compared
    without lowering. *)
Theorem search_case_insensitive_on_letterless_phones
    (lower : string -> string)
    (driverSearch : string) (drivers : list Driver.t) (driver : Driver.t) :
  (forall s, asciiOnly s = true -> lower s = toLowerCase s) ->
  asciiOnly driverSearch = true ->
  asciiOnly (Driver.name driver) = true ->
  asciiOnly (Driver.licenseId driver) = true ->
  noLetters (Driver.phone driver) = true ->
  (In driver (searchDriversWith lower driverSearch drivers)
   <-> In driver drivers
       /\ (occurs_ci driverSearch (Driver.name driver)
           \/ occurs_ci driverSearch (Driver.licenseId driver)
           \/ occurs_ci driverSearch (Driver.phone driver))).
Proof.
  intros Hascii Hq Hname Hlic Hph.
  rewrite (occurs_ci_noLetters _ _ Hph).
  apply searchDriversWith_ascii; assumption.
Qed.

(** The query differs in letter case from the name it is found in. *)
Lemma search_case_insensitive_on_letterless_phones_witness :
  asciiOnly "jANE" = true
  /\ asciiOnly (Driver.name jane) = true
  /\ asciiOnly (Driver.licenseId jane) = true
  /\ noLetters (Driver.phone jane) = true
  /\ occurs_ci "jANE" (Driver.name jane)
  /\ ~ occurs "jANE" (Driver.name jane)
  /\ In jane (searchDriversWith toLowerCase "jANE" [jane; vanity]).
Proof.
  assert (Hci : occurs_ci "jANE" (Driver.name jane)).
  { exists "", "Jane", " Doe". split; reflexivity. }
  assert (Hlit : ~ occurs "jANE" (Driver.name jane)).
  { intros H. apply includes_occurs in H. discriminate H. }
  repeat (split; [reflexivity|]). split; [exact Hci|]. split; [exact Hlit|].
  apply (search_case_insensitive_on_letterless_phones
           toLowerCase "jANE" [jane; vanity] jane
           (fun s _ => eq_refl) eq_refl eq_refl eq_refl eq_refl).
  split; [left; reflexivity|]. left. exact Hci.
Defined.

Lemma nonEmpty_length (s : string) : nonEmpty s = true <-> (1 <= String.length s)%nat.
Proof. destruct s; simpl; split; (discriminate || lia || reflexivity). Qed.

(** The text check shared by the fields of both forms: required, and at
    least [n] characters once trimmed. *)
Lemma required_min_length (s msg1 msg2 : string) (n : nat) :
  (1 <= n)%nat ->
  ((if negb (nonEmpty (trim s)) then Some msg1
    else if (String.length (trim s) <? n)%nat then Some msg2 else None) = None
   <-> (n <= String.length (trim s))%nat).
Proof.
  intros Hn. destruct (nonEmpty (trim s)) eqn:E; simpl.
  - destruct (Nat.ltb_spec (String.length (trim s)) n); split; (discriminate || lia || reflexivity).
  - apply nonEmpty_false in E. rewrite E. simpl. split; [discriminate | lia].
Qed.

Lemma DriverForm_valid_iff (formData : DriverFormData.t) :
  DriverFormErrors.none (DriverForm.validateForm formData) = true
  <-> (2 <= String.length (trim (DriverFormData.name formData)))%nat
      /\ isValidPhone (DriverFormData.phone formData) = true
      /\ (3 <= String.length (trim (DriverFormData.licenseId formData)))%nat.
Proof.
  rewrite <- (form_phone_check formData).
  unfold DriverForm.validateForm at 1 2. unfold DriverFormErrors.none. cbn [DriverFormErrors.name DriverFormErrors.phone DriverFormErrors.licenseId].
  rewrite <- (required_min_length (DriverFormData.name formData)
                "Full name is required" "Name must be at least 2 characters" 2) by lia.
  rewrite <- (required_min_length (DriverFormData.licenseId formData)
                "License ID is required" "License ID must be at least 3 characters" 3) by lia.
  unfold DriverForm.validateForm. cbn [DriverFormErrors.phone].
  repeat match goal with |- context [if ?b then _ else _] => destruct b end;
    simpl; split; (tauto || congruence || (intros (? & ? & ?); congruence)).
Qed.

Lemma eval_seq_ret {A B} (c : Store A) (b : B) (w : World) :
  eval (c ;; ret b) w = b.
Proof. unfold eval, bind, ret. destruct (c w); reflexivity. Qed.

Lemma exec_seq_ret {A B} (c : Store A) (b : B) (w : World) :
  exec (c ;; ret b) w = exec c w.
Proof. unfold exec, bind, ret. destruct (c w); reflexivity. Qed.

Lemma DriverForm_handleSubmit_run (env : Env) (st : DriverForm.t) (w : World) :
  DriverForm.handleSubmit env st w
  = if DriverFormErrors.none (DriverForm.validateForm (DriverForm.formData st))
    then (DriverForm.mk (DriverFormData.mk "" "" "" available)
            (DriverFormErrors.mk None None None)
            ("Driver " ++ dquote ++ trim (DriverFormData.name (DriverForm.formData st))
             ++ dquote ++ " has been added successfully!")%string,
          exec (addDriver env (DriverForm.driverData (DriverForm.formData st))) w)
    else (DriverForm.mk (DriverForm.formData st)
            (DriverForm.validateForm (DriverForm.formData st))
            (DriverForm.successMessage st), w).
Proof.
  unfold DriverForm.handleSubmit.
  destruct (DriverFormErrors.none _); simpl; [|reflexivity].
  unfold bind, ret, exec. destruct (addDriver env _ w). reflexivity.
Qed.

(** X14. Submitting the driver form whose three texts are ASCII. A form
    with an error changes nothing in the stores: it keeps its fields and
    shows the errors. A form without error adds one driver at the end of the
    collection, whose name and licenseId are trimmed and have at least 2 and
    3 characters, whose phone passes [isValidPhone] and contains no letter,
    and whose status is the one selected; the routes are not touched and the
    form is cleared. *)
Theorem DriverForm_submit (env : Env) (st : DriverForm.t) (w : World) :
  let formData := DriverForm.formData st in
  let newErrors := DriverForm.validateForm formData in
  asciiOnly (DriverFormData.name formData) = true ->
  asciiOnly (DriverFormData.phone formData) = true ->
  asciiOnly (DriverFormData.licenseId formData) = true ->
  (DriverFormErrors.none newErrors = false ->
   DriverForm.handleSubmit env st w
   = (DriverForm.mk formData newErrors (DriverForm.successMessage st), w))
  /\ (DriverFormErrors.none newErrors = true ->
      exists d,
        drivers (exec (DriverForm.handleSubmit env st) w) = drivers w ++ [d]
        /\ routes (exec (DriverForm.handleSubmit env st) w) = routes w
        /\ Driver.name d = trim (DriverFormData.name formData)
        /\ Driver.phone d = trim (DriverFormData.phone formData)
        /\ Driver.licenseId d = trim (DriverFormData.licenseId formData)
        /\ Driver.status d = DriverFormData.status formData
        /\ trim (Driver.name d) = Driver.name d
        /\ (2 <= String.length (Driver.name d))%nat
        /\ trim (Driver.licenseId d) = Driver.licenseId d
        /\ (3 <= String.length (Driver.licenseId d))%nat
        /\ isValidPhone (Driver.phone d) = true
        /\ noLetters (Driver.phone d) = true
        /\ DriverForm.formData (eval (DriverForm.handleSubmit env st) w)
           = DriverFormData.mk "" "" "" available).
Proof.
  intros formData newErrors _ _ _. split; intros Hnone.
  - rewrite DriverForm_handleSubmit_run. fold formData newErrors. rewrite Hnone. reflexivity.
  - pose proof (proj1 (DriverForm_valid_iff formData) Hnone) as (Hname & Hphone & Hlic).
    unfold exec, eval. rewrite DriverForm_handleSubmit_run.
    fold formData newErrors. rewrite Hnone. cbn [fst snd].
    destruct (addDriver_world env w (DriverForm.driverData formData)) as (Hd & Hr & _).
    cbv zeta in Hd. eexists. split; [exact Hd|]. split; [exact Hr|]. simpl.
    repeat split; try (apply trim_idempotent); try assumption.
    + unfold isValidPhone in *. rewrite removeWhitespace_trim. exact Hphone.
    + exact (proj2 (isValidPhone_noLetters _ Hphone)).
Qed.

Lemma DriverForm_submit_witness :
  asciiOnly (DriverFormData.name (DriverForm.formData badFormState)) = true
  /\ asciiOnly (DriverFormData.phone (DriverForm.formData badFormState)) = true
  /\ asciiOnly (DriverFormData.licenseId (DriverForm.formData badFormState)) = true
  /\ DriverFormErrors.none (DriverForm.validateForm (DriverForm.formData badFormState)) = false
  /\ DriverForm.handleSubmit sampleEnv badFormState sampleWorld
     = (DriverForm.mk (DriverForm.formData badFormState)
                      (DriverForm.validateForm (DriverForm.formData badFormState))
                      (DriverForm.successMessage badFormState), sampleWorld)
  /\ asciiOnly (DriverFormData.name (DriverForm.formData janeFormState)) = true
  /\ asciiOnly (DriverFormData.phone (DriverForm.formData janeFormState)) = true
  /\ asciiOnly (DriverFormData.licenseId (DriverForm.formData janeFormState)) = true
  /\ DriverFormErrors.none (DriverForm.validateForm (DriverForm.formData janeFormState)) = true
  /\ exists d,
       drivers (exec (DriverForm.handleSubmit sampleEnv janeFormState) initialWorld)
       = drivers initialWorld ++ [d]
       /\ Driver.name d = trim (DriverFormData.name (DriverForm.formData janeFormState))
       /\ noLetters (Driver.phone d) = true.
Proof.
  assert (Hbad : DriverFormErrors.none
                   (DriverForm.validateForm (DriverForm.formData badFormState)) = false)
    by reflexivity.
  assert (Hgood : DriverFormErrors.none
                    (DriverForm.validateForm (DriverForm.formData janeFormState)) = true)
    by reflexivity.
  do 3 (split; [reflexivity|]). split; [exact Hbad|].
  split; [exact (proj1 (DriverForm_submit sampleEnv badFormState sampleWorld
                          eq_refl eq_refl eq_refl) Hbad)|].
  do 3 (split; [reflexivity|]). split; [exact Hgood|].
  destruct (proj2 (DriverForm_submit sampleEnv janeFormState initialWorld
                     eq_refl eq_refl eq_refl) Hgood)
    as (d & Hd & _ & Hname & _ & _ & _ & _ & _ & _ & _ & _ & Hletters & _).
  exists d. exact (conj Hd (conj Hname Hletters)).
Defined.

Example DriverForm_sample :
  DriverForm.validateForm (DriverForm.formData badFormState)
  = DriverFormErrors.mk (Some "Name must be at least 2 characters")
                        (Some "Please enter a valid phone number") None
  /\ map Driver.name (drivers (exec (DriverForm.handleSubmit sampleEnv janeFormState) initialWorld))
     = ["Jane Doe"]
  /\ map Driver.phone (drivers (exec (DriverForm.handleSubmit sampleEnv janeFormState) initialWorld))
     = ["+1 555 123 4567"]
  /\ DriverForm.successMessage (eval (DriverForm.handleSubmit sampleEnv janeFormState) initialWorld)
     = ("Driver " ++ dquote ++ "Jane Doe" ++ dquote ++ " has been added successfully!")%string.
Proof. vm_compute. repeat split. Qed.

(** A route form passes the validation exactly when its three texts are
    long enough once trimmed, both times are filled in and the end is
    strictly after the start. *)
Lemma RouteForm_valid_iff (formData : RouteFormData.t) :
  RouteFormErrors.none (RouteForm.validateForm formData) = true
  <-> (3 <= String.length (trim (RouteFormData.routeCode formData)))%nat
      /\ (2 <= String.length (trim (RouteFormData.origin formData)))%nat
      /\ (2 <= String.length (trim (RouteFormData.destination formData)))%nat
      /\ exists startTime endTime,
           RouteFormData.startTime formData = Some startTime
           /\ RouteFormData.endTime formData = Some endTime
           /\ startTime < endTime.
Proof.
  rewrite <- (required_min_length (RouteFormData.routeCode formData)
                "Route code is required" "Route code must be at least 3 characters" 3) by lia.
  rewrite <- (required_min_length (RouteFormData.origin formData)
                "Origin is required" "Origin must be at least 2 characters" 2) by lia.
  rewrite <- (required_min_length (RouteFormData.destination formData)
                "Destination is required" "Destination must be at least 2 characters" 2) by lia.
  unfold RouteForm.validateForm, RouteFormErrors.none.
  cbn [RouteFormErrors.routeCode RouteFormErrors.origin RouteFormErrors.destination
       RouteFormErrors.startTime RouteFormErrors.endTime].
  destruct (RouteFormData.startTime formData) as [s|],
           (RouteFormData.endTime formData) as [e|];
    try destruct (Z.leb_spec e s);
    repeat match goal with |- context [if ?b then _ else _] => destruct b end;
    simpl; split;
    try discriminate; try tauto;
    try (intros (? & ? & ? & s' & e' & Hs & He & Hlt); congruence);
    try (intros (? & ? & ? & s' & e' & [= <-] & [= <-] & Hlt); lia);
    try (intros _; repeat split; eauto; exists s, e; repeat split; lia).
Qed.

(** The run of RouteForm's [handleSubmit] on a form that passes the
    validation: [addRoute], then [updateDriver] when a driver is chosen. *)
Lemma RouteForm_handleSubmit_accept (env : Env) (st : RouteForm.t) (w : World) :
  let formData := RouteForm.formData st in
  let a := RouteFormData.assignedDriverId formData in
  RouteFormErrors.none (RouteForm.validateForm formData) = true ->
  exists startTime endTime,
    RouteFormData.startTime formData = Some startTime
    /\ RouteFormData.endTime formData = Some endTime
    /\ startTime < endTime
    /\ exec (RouteForm.handleSubmit env st) w
       = let w1 := exec (addRoute env
                           (RouteInput.mk (trim (RouteFormData.routeCode formData))
                                          (trim (RouteFormData.origin formData))
                                          (trim (RouteFormData.destination formData))
                                          startTime endTime
                                          (if nonEmpty a then Some a else None))) w in
         if nonEmpty a
         then exec (updateDriver env a (DriverUpdates.mk None None None (Some assigned))) w1
         else w1.
Proof.
  intros formData a Hnone.
  destruct (proj1 (RouteForm_valid_iff formData) Hnone)
    as (_ & _ & _ & s & e & Hs & He & Hlt).
  exists s, e. repeat split; try assumption.
  unfold RouteForm.handleSubmit. fold formData. rewrite Hnone, Hs, He. cbn [negb].
  fold a. rewrite exec_seq, exec_seq_ret.
  destruct (nonEmpty a); reflexivity.
Qed.

Lemma RouteForm_handleSubmit_reject (env : Env) (st : RouteForm.t) (w : World) :
  RouteFormErrors.none (RouteForm.validateForm (RouteForm.formData st)) = false ->
  RouteForm.handleSubmit env st w
  = (RouteForm.mk (RouteForm.formData st)
                  (RouteForm.validateForm (RouteForm.formData st))
                  (RouteForm.successMessage st), w).
Proof. intros H. unfold RouteForm.handleSubmit. rewrite H. reflexivity. Qed.

(** On fields whose times are empty or read as dates, the validation is
    the one on the form data with its times read. *)
Lemma RouteFormFields_validateForm_read (fields : RouteFormFields.t) :
  RouteFormFields.readable fields = true ->
  RouteFormFields.validateForm fields
  = RouteForm.validateForm (RouteFormFields.read fields).
Proof.
  destruct fields as [c o d s e a].
  unfold RouteFormFields.readable, RouteFormFields.validateForm, RouteForm.validateForm,
    RouteFormFields.read.
  cbn [RouteFormFields.routeCode RouteFormFields.origin RouteFormFields.destination
       RouteFormFields.startTime RouteFormFields.endTime
       RouteFormData.routeCode RouteFormData.origin RouteFormData.destination
       RouteFormData.startTime RouteFormData.endTime].
  destruct s, e; intros H; try discriminate H; reflexivity.
Qed.

Lemma RouteFormFields_valid_iff (fields : RouteFormFields.t) :
  RouteFormErrors.none (RouteFormFields.validateForm fields) = true
  <-> (3 <= String.length (trim (RouteFormFields.routeCode fields)))%nat
      /\ (2 <= String.length (trim (RouteFormFields.origin fields)))%nat
      /\ (2 <= String.length (trim (RouteFormFields.destination fields)))%nat
      /\ DateTimeLocal.isSet (RouteFormFields.startTime fields) = true
      /\ DateTimeLocal.isSet (RouteFormFields.endTime fields) = true
      /\ (forall startDateTime endDateTime,
            RouteFormFields.startTime fields = DateTimeLocal.date startDateTime ->
            RouteFormFields.endTime fields = DateTimeLocal.date endDateTime ->
            startDateTime < endDateTime).
Proof.
  rewrite <- (required_min_length (RouteFormFields.routeCode fields)
                "Route code is required" "Route code must be at least 3 characters" 3) by lia.
  rewrite <- (required_min_length (RouteFormFields.origin fields)
                "Origin is required" "Origin must be at least 2 characters" 2) by lia.
  rewrite <- (required_min_length (RouteFormFields.destination fields)
                "Destination is required" "Destination must be at least 2 characters" 2) by lia.
  unfold RouteFormFields.validateForm, RouteFormErrors.none.
  cbn [RouteFormErrors.routeCode RouteFormErrors.origin RouteFormErrors.destination
       RouteFormErrors.startTime RouteFormErrors.endTime].
  generalize (if negb (nonEmpty (trim (RouteFormFields.routeCode fields)))
              then Some "Route code is required"
              else if (String.length (trim (RouteFormFields.routeCode fields)) <? 3)%nat
                   then Some "Route code must be at least 3 characters" else None).
  generalize (if negb (nonEmpty (trim (RouteFormFields.origin fields)))
              then Some "Origin is required"
              else if (String.length (trim (RouteFormFields.origin fields)) <? 2)%nat
                   then Some "Origin must be at least 2 characters" else None).
  generalize (if negb (nonEmpty (trim (RouteFormFields.destination fields)))
              then Some "Destination is required"
              else if (String.length (trim (RouteFormFields.destination fields)) <? 2)%nat
                   then Some "Destination must be at least 2 characters" else None).
  intros [x|] [y|] [z|];
    try (cbn [negb]; split; [discriminate | intros (H1 & H2 & H3 & _); congruence]).
  destruct (RouteFormFields.startTime fields) as [|s|],
           (RouteFormFields.endTime fields) as [|e|];
    cbn [DateTimeLocal.isSet DateTimeLocal.getTime DateTimeLocal.leq negb andb];
    try (split; [discriminate | intros (_ & _ & _ & H & H' & _); discriminate]).
  - destruct (Z.leb_spec e s) as [Hle|Hlt]; split.
    + discriminate.
    + intros (_ & _ & _ & _ & _ & H). specialize (H s e eq_refl eq_refl). lia.
    + intros _. do 5 (split; [reflexivity|]).
      intros s' e' [= <-] [= <-]. exact Hlt.
    + reflexivity.
  - split; [|reflexivity]. intros _. do 5 (split; [reflexivity|]). discriminate.
  - split; [|reflexivity]. intros _. do 5 (split; [reflexivity|]). discriminate.
  - split; [|reflexivity]. intros _. do 5 (split; [reflexivity|]). discriminate.
Qed.

(** X16. The route form whose three texts are ASCII is accepted exactly
    when route code, origin and destination have at least 3, 2 and 2
    characters once trimmed, both times are filled in and, when both are
    read as dates, the end is strictly after the start. Two dates with the
    end not after the start are refused with the message for the end time.
    A time that is filled in but not read as a date raises no error, on
    either time. On fields whose times are empty or read as dates the
    validation is [RouteForm.validateForm] on the times read. *)
Theorem RouteForm_validation (fields : RouteFormFields.t) :
  asciiOnly (RouteFormFields.routeCode fields) = true ->
  asciiOnly (RouteFormFields.origin fields) = true ->
  asciiOnly (RouteFormFields.destination fields) = true ->
  (RouteFormErrors.none (RouteFormFields.validateForm fields) = true
   <-> (3 <= String.length (trim (RouteFormFields.routeCode fields)))%nat
       /\ (2 <= String.length (trim (RouteFormFields.origin fields)))%nat
       /\ (2 <= String.length (trim (RouteFormFields.destination fields)))%nat
       /\ DateTimeLocal.isSet (RouteFormFields.startTime fields) = true
       /\ DateTimeLocal.isSet (RouteFormFields.endTime fields) = true
       /\ (forall startDateTime endDateTime,
             RouteFormFields.startTime fields = DateTimeLocal.date startDateTime ->
             RouteFormFields.endTime fields = DateTimeLocal.date endDateTime ->
             startDateTime < endDateTime))
  /\ (forall startDateTime endDateTime,
        RouteFormFields.startTime fields = DateTimeLocal.date startDateTime ->
        RouteFormFields.endTime fields = DateTimeLocal.date endDateTime ->
        endDateTime <= startDateTime ->
        RouteFormErrors.endTime (RouteFormFields.validateForm fields)
        = Some "End time must be after start time")
  /\ (DateTimeLocal.isSet (RouteFormFields.startTime fields) = true ->
      DateTimeLocal.isSet (RouteFormFields.endTime fields) = true ->
      RouteFormFields.readable fields = false ->
      RouteFormErrors.startTime (RouteFormFields.validateForm fields) = None
      /\ RouteFormErrors.endTime (RouteFormFields.validateForm fields) = None)
  /\ (RouteFormFields.readable fields = true ->
      RouteFormFields.validateForm fields
      = RouteForm.validateForm (RouteFormFields.read fields)).
Proof.
  intros _ _ _.
  split; [apply RouteFormFields_valid_iff|].
  split; [|split; [|apply RouteFormFields_validateForm_read]].
  - intros s e Hs He Hle. unfold RouteFormFields.validateForm.
    cbn [RouteFormErrors.endTime]. rewrite Hs, He.
    cbn [DateTimeLocal.isSet DateTimeLocal.getTime DateTimeLocal.leq negb andb].
    apply Z.leb_le in Hle. rewrite Hle. reflexivity.
  - unfold RouteFormFields.validateForm, RouteFormFields.readable.
    cbn [RouteFormErrors.startTime RouteFormErrors.endTime].
    destruct (RouteFormFields.startTime fields), (RouteFormFields.endTime fields);
      intros Hs He Hr; try discriminate; split; reflexivity.
Qed.

Lemma nonEmpty_true (s : string) : s <> "" -> nonEmpty s = true.
Proof. intros H. unfold nonEmpty. apply negb_true_iff. apply String.eqb_neq. exact H. Qed.

(** The world after the submission of a route form, by the form data with
    its times read. *)
Lemma RouteForm_handleSubmit_world (env : Env) (st : RouteForm.t) (w : World) :
  let formData := RouteForm.formData st in
  let a := RouteFormData.assignedDriverId formData in
  let w' := exec (RouteForm.handleSubmit env st) w in
  (RouteFormErrors.none (RouteForm.validateForm formData) = false ->
   RouteForm.handleSubmit env st w
   = (RouteForm.mk formData (RouteForm.validateForm formData)
                   (RouteForm.successMessage st), w))
  /\ (RouteFormErrors.none (RouteForm.validateForm formData) = true ->
      exists r,
        routes w' = routes w ++ [r]
        /\ Route.startTime r < Route.endTime r
        /\ Route.routeCode r = trim (RouteFormData.routeCode formData)
        /\ Route.origin r = trim (RouteFormData.origin formData)
        /\ Route.destination r = trim (RouteFormData.destination formData)
        /\ (a = "" -> Route.assignedDriverId r = None /\ drivers w' = drivers w
                      /\ In r (eval getUnassignedRoutes w'))
        /\ (a <> "" ->
            Route.assignedDriverId r = Some a
            /\ In r (eval (getRoutesByDriver a) w')
            /\ Forall2 (fun d d' =>
                          if (Driver.id d =? a)%string
                          then Driver.status d' = assigned
                               /\ Driver.id d' = Driver.id d
                               /\ Driver.name d' = Driver.name d
                               /\ Driver.phone d' = Driver.phone d
                               /\ Driver.licenseId d' = Driver.licenseId d
                               /\ Driver.createdAt d' = Driver.createdAt d
                          else d' = d) (drivers w) (drivers w'))).
Proof.
  intros formData a w'. split; [apply RouteForm_handleSubmit_reject|].
  intros Hnone.
  destruct (RouteForm_handleSubmit_accept env st w Hnone)
    as (s & e & Hs & He & Hlt & Hrun).
  fold formData a w' in Hrun. cbv zeta in Hrun.
  destruct (nonEmpty a) eqn:Hne.
  - match type of Hrun with context [addRoute env ?i] => set (routeData := i) in * end.
    destruct (addRoute_world env w routeData) as (Hr1 & Hd1 & _). cbv zeta in Hr1.
    set (w1 := exec (addRoute env routeData) w) in *.
    destruct (updateDriver_world env w1 a (DriverUpdates.mk None None None (Some assigned)))
      as (Hrel & Hr2 & _). cbv zeta in Hrel.
    rewrite <- Hrun in Hrel, Hr2. rewrite Hr1 in Hr2. rewrite Hd1 in Hrel.
    eexists. split; [exact Hr2|]. simpl.
    split; [exact Hlt|]. do 3 (split; [reflexivity|]). split.
    + intros Ha. unfold nonEmpty in Hne. rewrite Ha in Hne. discriminate.
    + intros _. split; [reflexivity|]. split.
      * apply getRoutesByDriver_In. rewrite Hr2. split; [|reflexivity].
        apply in_or_app. right. left. reflexivity.
      * eapply Forall2_impl; [|exact Hrel].
        simpl. intros d d'. destruct (Driver.id d =? a)%string; [|auto].
        intros (n & _ & ->). repeat split.
  - match type of Hrun with context [addRoute env ?i] => set (routeData := i) in * end.
    destruct (addRoute_world env w routeData) as (Hr1 & Hd1 & _). cbv zeta in Hr1.
    rewrite <- Hrun in Hr1, Hd1.
    eexists. split; [exact Hr1|]. simpl.
    split; [exact Hlt|]. do 3 (split; [reflexivity|]). split.
    + intros _. split; [reflexivity|]. split; [exact Hd1|].
      unfold eval, getUnassignedRoutes, bind, get, ret. cbn [fst]. rewrite Hr1.
      apply filter_In. split; [apply in_or_app; right; left; reflexivity | reflexivity].
    + intros Ha. apply nonEmpty_true in Ha. congruence.
Qed.

(** X17. Submitting the route form whose three texts are ASCII and whose
    times are empty or read as dates. A form with an error changes nothing in
    the stores. A form without error adds one route at the end of the
    collection, with the trimmed texts and a start strictly before its end.
    With no driver chosen the route is unassigned and the drivers are not
    touched; with a driver chosen the route is among the routes of that
    driver, and the drivers with that id, and only they, get the status
    [assigned], all their other fields but updatedAt being kept. *)
Theorem RouteForm_submit
    (env : Env) (fields : RouteFormFields.t) (errors : RouteFormErrors.t)
    (successMessage : string) (w : World) :
  let formData := RouteFormFields.read fields in
  let st := RouteForm.mk formData errors successMessage in
  let a := RouteFormFields.assignedDriverId fields in
  let w' := exec (RouteForm.handleSubmit env st) w in
  asciiOnly (RouteFormFields.routeCode fields) = true ->
  asciiOnly (RouteFormFields.origin fields) = true ->
  asciiOnly (RouteFormFields.destination fields) = true ->
  RouteFormFields.readable fields = true ->
  (RouteFormErrors.none (RouteFormFields.validateForm fields) = false ->
   RouteForm.handleSubmit env st w
   = (RouteForm.mk formData (RouteFormFields.validateForm fields) successMessage, w))
  /\ (RouteFormErrors.none (RouteFormFields.validateForm fields) = true ->
      exists r,
        routes w' = routes w ++ [r]
        /\ Route.startTime r < Route.endTime r
        /\ Route.routeCode r = trim (RouteFormFields.routeCode fields)
        /\ Route.origin r = trim (RouteFormFields.origin fields)
        /\ Route.destination r = trim (RouteFormFields.destination fields)
        /\ (a = "" -> Route.assignedDriverId r = None /\ drivers w' = drivers w
                      /\ In r (eval getUnassignedRoutes w'))
        /\ (a <> "" ->
            Route.assignedDriverId r = Some a
            /\ In r (eval (getRoutesByDriver a) w')
            /\ Forall2 (fun d d' =>
                          if (Driver.id d =? a)%string
                          then Driver.status d' = assigned
                               /\ Driver.id d' = Driver.id d
                               /\ Driver.name d' = Driver.name d
                               /\ Driver.phone d' = Driver.phone d
                               /\ Driver.licenseId d' = Driver.licenseId d
                               /\ Driver.createdAt d' = Driver.createdAt d
                          else d' = d) (drivers w) (drivers w'))).
Proof.
  intros formData st a w' _ _ _ Hread.
  rewrite (RouteFormFields_validateForm_read fields Hread).
  exact (RouteForm_handleSubmit_world env st w).
Qed.

Lemma RouteForm_validation_witness :
  asciiOnly (RouteFormFields.routeCode (routeFields "" (at_hour 8) (at_hour 8))) = true
  /\ asciiOnly (RouteFormFields.origin (routeFields "" (at_hour 8) (at_hour 8))) = true
  /\ asciiOnly (RouteFormFields.destination (routeFields "" (at_hour 8) (at_hour 8))) = true
  /\ RouteFormErrors.endTime
       (RouteFormFields.validateForm (routeFields "" (at_hour 8) (at_hour 8)))
     = Some "End time must be after start time"
  /\ RouteFormErrors.none
       (RouteFormFields.validateForm
          (routeFields "" DateTimeLocal.unreadable (at_hour 8))) = true.
Proof.
  do 3 (split; [reflexivity|]). split.
  - apply (proj1 (proj2 (RouteForm_validation (routeFields "" (at_hour 8) (at_hour 8))
                           eq_refl eq_refl eq_refl))
                 (dateTimeLocal 2024 1 1 8 0) (dateTimeLocal 2024 1 1 8 0)
                 eq_refl eq_refl).
    apply Z.le_refl.
  - apply (proj1 (RouteForm_validation
                    (routeFields "" DateTimeLocal.unreadable (at_hour 8))
                    eq_refl eq_refl eq_refl)).
    split; [vm_compute; lia|]. split; [vm_compute; lia|]. split; [vm_compute; lia|].
    split; [reflexivity|]. split; [reflexivity|].
    intros s e Hs. discriminate Hs.
Defined.

Lemma RouteForm_submit_witness :
  let fields := routeFields "1-uuid" (at_hour 8) (at_hour 10) in
  let st := RouteForm.mk (RouteFormFields.read fields)
                         (RouteFormErrors.mk None None None None None) "" in
  asciiOnly (RouteFormFields.routeCode fields) = true
  /\ asciiOnly (RouteFormFields.origin fields) = true
  /\ asciiOnly (RouteFormFields.destination fields) = true
  /\ RouteFormFields.readable fields = true
  /\ RouteFormErrors.none (RouteFormFields.validateForm fields) = true
  /\ "1-uuid" <> ""
  /\ exists r,
       routes (exec (RouteForm.handleSubmit sampleEnv st) sampleWorld)
       = routes sampleWorld ++ [r]
       /\ Route.startTime r < Route.endTime r
       /\ Route.assignedDriverId r = Some "1-uuid"
       /\ In r (eval (getRoutesByDriver "1-uuid")
                  (exec (RouteForm.handleSubmit sampleEnv st) sampleWorld)).
Proof.
  intros fields st.
  assert (Hvalid : RouteFormErrors.none (RouteFormFields.validateForm fields) = true)
    by reflexivity.
  assert (Hid : "1-uuid" <> "") by discriminate.
  do 4 (split; [reflexivity|]). split; [exact Hvalid|]. split; [exact Hid|].
  destruct (proj2 (RouteForm_submit sampleEnv fields
                     (RouteFormErrors.mk None None None None None) "" sampleWorld
                     eq_refl eq_refl eq_refl eq_refl) Hvalid)
    as (r & Hroutes & Hlt & _ & _ & _ & _ & Hchosen).
  destruct (Hchosen Hid) as (Hassigned & Hin & _).
  exists r. exact (conj Hroutes (conj Hlt (conj Hassigned Hin))).
Defined.

Example RouteForm_sample :
  let w' := exec (RouteForm.handleSubmit sampleEnv (routeFormState "1-uuid" 8 10)) sampleWorld in
  map Driver.status (drivers w') = [assigned; assigned]
  /\ map Route.routeCode (routes w') = ["RT001"; "RT001"]
  /\ map Route.assignedDriverId (routes w') = [Some "0-uuid"; Some "1-uuid"]
  /\ exec (RouteForm.handleSubmit sampleEnv (routeFormState "1-uuid" 10 8)) sampleWorld
     = sampleWorld
  /\ map Route.assignedDriverId
         (routes (exec (RouteForm.handleSubmit sampleEnv (routeFormState "" 8 10)) sampleWorld))
     = [Some "0-uuid"; None].
Proof. vm_compute. repeat split. Qed.

(** ** What the two forms keep true *)

Lemma Forall2_In_r {A} (R : A -> A -> Prop) (l l' : list A) (y : A) :
  Forall2 R l l' -> In y l' -> exists x, In x l /\ R x y.
Proof.
  induction 1 as [|x y' l l' Hxy Hrel IH]; simpl; [contradiction|].
  intros [<-|Hin].
  - exists x. auto.
  - destruct (IH Hin) as (x' & Hx' & Hr). exists x'. auto.
Qed.

Lemma DriverForm_handleSubmit_exec (env : Env) (st : DriverForm.t) (w : World) :
  exec (DriverForm.handleSubmit env st) w
  = if DriverFormErrors.none (DriverForm.validateForm (DriverForm.formData st))
    then exec (addDriver env (DriverForm.driverData (DriverForm.formData st))) w
    else w.
Proof.
  unfold exec at 1. rewrite DriverForm_handleSubmit_run.
  destruct (DriverFormErrors.none _); reflexivity.
Qed.

Section Forms.

Context (env : Env) (Hfresh : freshIds env).

(** The invariant of the worlds reachable through the forms. *)
Lemma formReachable_inv (w : World) :
  formReachable env w ->
  reachable env w
  /\ (forall r a, In r (routes w) -> Route.assignedDriverId r = Some a ->
                  exists d, In d (drivers w) /\ Driver.id d = a)
  /\ referencedAreAssigned w.
Proof.
  unfold referencedAreAssigned.
  induction 1 as [|w st _ IH|w st _ IH Hchoice].
  - split; [constructor|]. split; intros r; simpl; contradiction.
  - destruct IH as (Hreach & Hres & Hass).
    rewrite DriverForm_handleSubmit_exec.
    destruct (DriverFormErrors.none _); [|auto].
    set (input := DriverForm.driverData (DriverForm.formData st)).
    destruct (addDriver_world env w input) as (Hd & Hr & _). cbv zeta in Hd.
    split; [constructor; exact Hreach|]. rewrite Hd, Hr. split.
    + intros r a Hin Ha. destruct (Hres r a Hin Ha) as (d & Hdin & Hid).
      exists d. split; [apply in_or_app; left; exact Hdin | exact Hid].
    + intros r d Hin Hdin Ha. apply in_app_or in Hdin. destruct Hdin as [Hdin|[<-|[]]].
      * exact (Hass r d Hin Hdin Ha).
      * exfalso. simpl in Ha.
        destruct (Hres r _ Hin Ha) as (d0 & Hd0 & Hid0).
        destruct (reachable_ids env Hfresh w Hreach) as (_ & Hissued & _).
        apply (next_id_not_in env Hfresh Driver.id (uuidCalls w) (drivers w) Hissued).
        rewrite <- Hid0. apply in_map. exact Hd0.
  - destruct IH as (Hreach & Hres & Hass).
    destruct (RouteFormErrors.none (RouteForm.validateForm (RouteForm.formData st))) eqn:Hnone.
    2: { unfold exec. rewrite (RouteForm_handleSubmit_reject env st w Hnone). auto. }
    destruct (RouteForm_handleSubmit_accept env st w Hnone)
      as (s & e & _ & _ & _ & Hrun).
    cbv zeta in Hrun. rewrite Hrun. clear Hrun.
    set (a := RouteFormData.assignedDriverId (RouteForm.formData st)) in *.
    match goal with |- context [addRoute env ?i] => set (routeData := i) in * end.
    destruct (addRoute_world env w routeData) as (Hr1 & Hd1 & _). cbv zeta in Hr1.
    assert (Hreach1 : reachable env (exec (addRoute env routeData) w))
      by (constructor; exact Hreach).
    set (w1 := exec (addRoute env routeData) w) in *.
    destruct (nonEmpty a) eqn:Hne.
    + (* a driver is chosen *)
      destruct Hchoice as [Hempty|(d0 & Hd0 & Hid0)].
      { rewrite Hempty in Hne. discriminate. }
      apply filter_In in Hd0. destruct Hd0 as [Hd0 _].
      set (patch := DriverUpdates.mk None None None (Some assigned)).
      destruct (updateDriver_world env w1 a patch) as (Hrel & Hr2 & _). cbv zeta in Hrel.
      pose proof (updateDriver_ids env w1 a patch) as Hids.
      split; [constructor; exact Hreach1|].
      rewrite Hr2, Hr1. rewrite Hd1 in Hrel, Hids. split.
      * intros r a' Hin Ha'.
        assert (Hex : exists d, In d (drivers w) /\ Driver.id d = a').
        { apply in_app_or in Hin. destruct Hin as [Hin|[<-|[]]].
          - exact (Hres r a' Hin Ha').
          - unfold routeData in Ha'.
              cbn [Route.assignedDriverId RouteInput.assignedDriverId] in Ha'. try rewrite Hne in Ha'.
            injection Ha' as <-. exists d0. auto. }
        destruct Hex as (d & Hdin & Hid).
        assert (Hmem : In a' (map Driver.id (drivers (exec (updateDriver env a patch) w1)))).
        { rewrite Hids, <- Hid. apply in_map. exact Hdin. }
        apply in_map_iff in Hmem. destruct Hmem as (d' & Hid' & Hdin'). eauto.
      * intros r d' Hin Hdin' Ha'.
        destruct (Forall2_In_r _ _ _ d' Hrel Hdin') as (d & Hdin & Hdd').
        simpl in Hdd'. destruct (Driver.id d =? a)%string eqn:Hda.
        -- destruct Hdd' as (n & _ & ->). reflexivity.
        -- subst d'. apply String.eqb_neq in Hda.
           apply in_app_or in Hin. destruct Hin as [Hin|[<-|[]]].
           ++ exact (Hass r d Hin Hdin Ha').
           ++ exfalso. unfold routeData in Ha'.
              cbn [Route.assignedDriverId RouteInput.assignedDriverId] in Ha'.
              try rewrite Hne in Ha'. injection Ha' as Ha'. congruence.
    + (* no driver is chosen *)
      split; [exact Hreach1|]. rewrite Hr1, Hd1. split.
      * intros r a' Hin Ha'. apply in_app_or in Hin. destruct Hin as [Hin|[<-|[]]].
        -- exact (Hres r a' Hin Ha').
        -- unfold routeData in Ha'.
              cbn [Route.assignedDriverId RouteInput.assignedDriverId] in Ha'. try rewrite Hne in Ha'.
           discriminate.
      * intros r d Hin Hdin Ha'. apply in_app_or in Hin. destruct Hin as [Hin|[<-|[]]].
        -- exact (Hass r d Hin Hdin Ha').
        -- unfold routeData in Ha'.
              cbn [Route.assignedDriverId RouteInput.assignedDriverId] in Ha'. try rewrite Hne in Ha'.
           discriminate.
Qed.

(** X18. With an id generator that never repeats itself and never yields
    the empty string, every world reached through the two forms alone (the
    route form being submitted with no driver or with one of the available
    drivers it offers) keeps all assignments resolvable: every
    [assignedDriverId] is the non-empty id of a driver of the collection,
    and every driver that a route points to has the status [assigned]. *)
Theorem forms_keep_references (w : World) :
  formReachable env w ->
  referencesResolve w /\ referencedAreAssigned w /\ reachable env w.
Proof.
  intros Hform. destruct (formReachable_inv w Hform) as (Hreach & Hres & Hass).
  split; [|split; assumption]. split; [|exact Hres].
  intros d Hd Hid.
  destruct (reachable_ids env Hfresh w Hreach) as (_ & Hissued & _).
  unfold driverIdsIssued in Hissued. rewrite Forall_forall in Hissued.
  destruct (Hissued d Hd) as (n & _ & Hn). rewrite Hn in Hid.
  exact (proj2 Hfresh n Hid).
Qed.

End Forms.

Lemma formWorld_formReachable : formReachable tallyEnv formWorld.
Proof.
  replace formWorld
    with (exec (RouteForm.handleSubmit tallyEnv (routeFormState "u" 8 10))
               (exec (DriverForm.handleSubmit tallyEnv janeFormState) initialWorld))
    by (vm_compute; reflexivity).
  apply form_route; [apply form_driver; apply form_initial|].
  right. eexists. split; [apply filter_In; split|].
  - vm_compute. left. reflexivity.
  - reflexivity.
  - reflexivity.
Qed.

Lemma forms_keep_references_witness :
  freshIds tallyEnv
  /\ formReachable tallyEnv formWorld
  /\ referencesResolve formWorld
  /\ referencedAreAssigned formWorld
  /\ reachable tallyEnv formWorld.
Proof.
  exact (conj tallyEnv_fresh (conj formWorld_formReachable
    (forms_keep_references tallyEnv tallyEnv_fresh formWorld formWorld_formReachable))).
Defined.

Example formWorld_value :
  map Driver.id (drivers formWorld) = ["u"]
  /\ map Driver.status (drivers formWorld) = [assigned]
  /\ map Route.assignedDriverId (routes formWorld) = [Some "u"]
  /\ map Route.routeCode (routes formWorld) = ["RT001"].
Proof. vm_compute. repeat split. Qed.

(** ** The navigation bar *)

Lemma startsWith_both (pathname h1 h2 : string) :
  startsWith pathname h1 = true -> startsWith pathname h2 = true ->
  exists x y, (h1 ++ x)%string = (h2 ++ y)%string.
Proof.
  intros H1 H2. apply startsWith_prefix in H1. apply startsWith_prefix in H2.
  destruct H1 as [x H1]. destruct H2 as [y H2]. exists x, y. congruence.
Qed.

(** X19. Whatever the path, at most one of the four links of the navigation
    bar is highlighted; the dashboard link is highlighted on the path "/"
    only, and each of the other links on every path that starts with its
    own. *)
Theorem nav_at_most_one_active (pathname : string) :
  (List.length (filter (isActive pathname) navHrefs) <= 1)%nat
  /\ (isActive pathname "/" = true <-> pathname = "/")
  /\ (forall href rest,
        In href ["/drivers"; "/routes"; "/calendar"] ->
        isActive (href ++ rest) href = true).
Proof.
  split; [|split].
  - unfold navHrefs, isActive. simpl filter.
    change (("/" =? "/")%string) with true.
    change (("/drivers" =? "/")%string) with false.
    change (("/routes" =? "/")%string) with false.
    change (("/calendar" =? "/")%string) with false.
    cbv iota.
    destruct (String.eqb_spec pathname "/") as [->|Hroot]; [vm_compute; lia|].
    destruct (startsWith pathname "/drivers") eqn:Hd,
             (startsWith pathname "/routes") eqn:Hr,
             (startsWith pathname "/calendar") eqn:Hc; simpl; try lia; exfalso.
    + destruct (startsWith_both _ _ _ Hd Hr) as (x & y & H). discriminate H.
    + destruct (startsWith_both _ _ _ Hd Hr) as (x & y & H). discriminate H.
    + destruct (startsWith_both _ _ _ Hd Hc) as (x & y & H). discriminate H.
    + destruct (startsWith_both _ _ _ Hr Hc) as (x & y & H). discriminate H.
  - unfold isActive. change (("/" =? "/")%string) with true. cbv iota.
    apply String.eqb_eq.
  - intros href rest [<-|[<-|[<-|[]]]]; unfold isActive;
      match goal with |- context [(?h =? "/")%string] => change ((h =? "/")%string) with false end;
      cbv iota; apply startsWith_prefix; exists rest; reflexivity.
Qed.

Example isActive_sample :
  filter (isActive "/drivers") navHrefs = ["/drivers"]
  /\ filter (isActive "/") navHrefs = ["/"]
  /\ filter (isActive "/routes/42") navHrefs = ["/routes"]
  /\ filter (isActive "/driversX") navHrefs = ["/drivers"]
  /\ filter (isActive "/settings") navHrefs = [].
Proof. vm_compute. repeat split. Qed.

(** ** What a cell of the calendar can hold *)

(** X13. The result of [getDriverAvailability] always carries the driver it
    was asked about; its status is [on_leave] exactly when the driver is on
    leave; it carries a route exactly when its status is [assigned], and
    that route is one of the collection, assigned to this driver, and
    starting on the day of the cell. *)
Theorem availability_result_sound
    (routes : list Route.t) (driver : Driver.t) (day : Date) (timeSlot : TimeSlot.t) :
  let result := getDriverAvailability routes driver day timeSlot in
  DriverAvailability.driver result = driver
  /\ (DriverAvailability.status result = on_leave <-> Driver.status driver = on_leave)
  /\ (DriverAvailability.status result = assigned
      <-> exists r, DriverAvailability.route result = Some r)
  /\ (forall r, DriverAvailability.route result = Some r ->
                In r routes
                /\ Route.assignedDriverId r = Some (Driver.id driver)
                /\ startOfDay (Route.startTime r) = startOfDay day
                /\ Driver.status driver <> on_leave).
Proof.
  unfold getDriverAvailability.
  destruct (DriverStatus_eqb (Driver.status driver) on_leave) eqn:Hs.
  - apply DriverStatus_eqb_eq in Hs. simpl.
    split; [reflexivity|]. split; [tauto|]. split.
    + split; [discriminate | intros [r Hr]; discriminate].
    + intros r Hr. discriminate.
  - apply DriverStatus_eqb_neq in Hs.
    destruct (find (routeCoversSlot driver day timeSlot) routes) as [r0|] eqn:Hfind; simpl.
    + apply find_some in Hfind. destruct Hfind as [Hin Hcov].
      unfold routeCoversSlot in Hcov.
      destruct (assignedTo r0 (Driver.id driver)) eqn:Ha; [|discriminate].
      destruct (isSameDay (Route.startTime r0) day) eqn:Hd; [|discriminate].
      apply assignedTo_eq in Ha. apply Z.eqb_eq in Hd.
      split; [reflexivity|]. split; [|split].
      * split; [discriminate | intros H; contradiction].
      * split; eauto.
      * intros r [= <-]. auto.
    + split; [reflexivity|]. split; [|split].
      * split; [discriminate | intros H; contradiction].
      * split; [discriminate | intros [r Hr]; discriminate].
      * intros r Hr. discriminate.
Qed.

(** ** The two stores are independent *)

(** X21. [addDriver] does not disturb the drivers already stored: the list
    that [getDriversByStatus] returns for a status is the one it returned
    before, followed by the new driver when that is its status, and
    [getDriver] still finds every driver it found before. *)
Theorem addDriver_extends_status_lists
    (env : Env) (w : World) (input : DriverInput.t) (status : DriverStatus) (id : string) :
  let w' := exec (addDriver env input) w in
  (exists d,
      drivers w' = drivers w ++ [d]
      /\ eval (getDriversByStatus status) w'
         = eval (getDriversByStatus status) w
           ++ (if DriverStatus_eqb (DriverInput.status input) status then [d] else []))
  /\ (forall d, eval (getDriver id) w = Some d -> eval (getDriver id) w' = Some d).
Proof.
  intros w'.
  destruct (addDriver_world env w input) as (Hd & _). cbv zeta in Hd. fold w' in Hd.
  split.
  - eexists. split; [exact Hd|].
    unfold eval, getDriversByStatus, bind, get, ret. cbn [fst].
    rewrite Hd, filter_app. reflexivity.
  - intros d Hget. unfold eval, getDriver, bind, get, ret in *. cbn [fst] in *.
    rewrite Hd, find_app, Hget. reflexivity.
Qed.

(** X22. The stores do not call each other: the three actions of the driver
    store leave the routes as they are, and the three actions of the route
    store leave the drivers as they are; in particular deleting or
    reassigning a route never resets the status of a driver. *)
Theorem stores_are_independent
    (env : Env) (w : World) (id : string)
    (driverInput : DriverInput.t) (driverPatch : DriverUpdates.t)
    (routeInput : RouteInput.t) (routePatch : RouteUpdates.t) :
  routes (exec (addDriver env driverInput) w) = routes w
  /\ routes (exec (updateDriver env id driverPatch) w) = routes w
  /\ routes (exec (deleteDriver id) w) = routes w
  /\ drivers (exec (addRoute env routeInput) w) = drivers w
  /\ drivers (exec (updateRoute env id routePatch) w) = drivers w
  /\ drivers (exec (deleteRoute id) w) = drivers w.
Proof.
  destruct (addDriver_world env w driverInput) as (_ & H1 & _).
  destruct (updateDriver_world env w id driverPatch) as (_ & H2 & _).
  destruct (deleteDriver_world w id) as (_ & H3 & _).
  destruct (addRoute_world env w routeInput) as (_ & H4 & _).
  destruct (updateRoute_world env w id routePatch) as (_ & H5 & _).
  destruct (deleteRoute_world w id) as (_ & H6 & _).
  repeat split; assumption.
Qed.

Example stores_are_independent_sample :
  let w' := exec (deleteRoute "2-uuid") sampleWorld in
  routes w' = []
  /\ map Driver.status (drivers w') = [assigned; available].
Proof. vm_compute. repeat split. Qed.

Lemma availability_result_sound_witness :
  DriverAvailability.route (getDriverAvailability [route_1000_1200; route_0800_1000]
                                                  jane jan1 (slotAt 8))
  = Some route_0800_1000
  /\ In route_0800_1000 [route_1000_1200; route_0800_1000]
  /\ Route.assignedDriverId route_0800_1000 = Some (Driver.id jane)
  /\ startOfDay (Route.startTime route_0800_1000) = startOfDay jan1
  /\ Driver.status jane <> on_leave.
Proof.
  assert (Hroute : DriverAvailability.route
                     (getDriverAvailability [route_1000_1200; route_0800_1000]
                                            jane jan1 (slotAt 8))
                   = Some route_0800_1000) by reflexivity.
  split; [exact Hroute|].
  exact (proj2 (proj2 (proj2
    (availability_result_sound [route_1000_1200; route_0800_1000] jane jan1 (slotAt 8))))
    route_0800_1000 Hroute).
Defined.

Lemma nav_at_most_one_active_witness :
  In "/routes" ["/drivers"; "/routes"; "/calendar"]
  /\ isActive ("/routes" ++ "/42") "/routes" = true.
Proof.
  assert (Hin : In "/routes" ["/drivers"; "/routes"; "/calendar"])
    by (right; left; reflexivity).
  split; [exact Hin|].
  exact (proj2 (proj2 (nav_at_most_one_active "/routes/42")) "/routes" "/42" Hin).
Defined.

Lemma addDriver_extends_status_lists_witness :
  exists d,
    eval (getDriver "1-uuid") sampleWorld = Some d
    /\ eval (getDriver "1-uuid") (exec (addDriver sampleEnv janeInput) sampleWorld) = Some d.
Proof.
  eexists. split; [reflexivity|].
  exact (proj2 (addDriver_extends_status_lists sampleEnv sampleWorld janeInput
                  available "1-uuid") _ eq_refl).
Defined.
